(** * obsidian-dataview: the literal value model, its comparator, grouping
      detection, task de-duplication and the in-place task rewriter.

    A shallow embedding of [data-model/value.ts] ([Values], [Groupings],
    [Link]), of the task manipulation part of [ui/views/task-view.tsx]
    ([nestItems], [setTaskCompletion], [rewriteTask]) and of the comparisons
    and loads of [api/plugin-api.ts]. *)

From Stdlib Require Import ZArith List String Ascii Lia Floats OrderedTypeEx.
From stdpp Require Import gmap strings list pretty.

Set Warnings "-register-all,-clear-no-such-hyp".

Local Open Scope string_scope.
Local Open Scope Z_scope.

(** ** Host (JavaScript) primitives on strings

    Strings are sequences of code units (here: [ascii], the code units
    below 256).  The host functions
    the program calls are written out: [String.prototype.trim],
    [String.prototype.split] with the two separators the program uses,
    [Array.prototype.join] and [String.prototype.contains]. *)
Module JS.

(** White space and line terminators removed by [trim] and matched by the
    regular expression class [\s], among the code units a string holds
    here (those below 256): tab, line feed, vertical tab, form feed,
    carriage return, space, and the no-break space U+00A0. *)
Definition NBSP : ascii := ascii_of_nat 160.
Definition isWhiteSpace (c : ascii) : bool :=
  match nat_of_ascii c with
  | 9%nat | 10%nat | 11%nat | 12%nat | 13%nat | 32%nat => true
  | _ => Ascii.eqb c NBSP
  end.

Definition CR : ascii := ascii_of_nat 13.
Definition LF : ascii := ascii_of_nat 10.
Definition TAB : ascii := ascii_of_nat 9.

Fixpoint trimStart (s : string) : string :=
  match s with
  | String c s' => if isWhiteSpace c then trimStart s' else s
  | EmptyString => EmptyString
  end.

Fixpoint trimEnd (s : string) : string :=
  match s with
  | String c s' =>
      match trimEnd s' with
      | EmptyString => if isWhiteSpace c then EmptyString else String c EmptyString
      | r => String c r
      end
  | EmptyString => EmptyString
  end.

(** [s.trim()] *)
Definition trim (s : string) : string := trimEnd (trimStart s).

(** The match of [/^\s*/u] on [s]: its leading white space. *)
Fixpoint leadingSpace (s : string) : string :=
  match s with
  | String c s' => if isWhiteSpace c then String c (leadingSpace s') else EmptyString
  | EmptyString => EmptyString
  end.

(** [s.split("\n")]: [cur] holds the piece being read. *)
Fixpoint splitLF_from (cur : string) (s : string) : list string :=
  match s with
  | EmptyString => [cur]
  | String c s' =>
      if Ascii.eqb c LF then cur :: splitLF_from EmptyString s'
      else splitLF_from (cur +:+ String c EmptyString) s'
  end.
Definition splitLF (s : string) : list string := splitLF_from EmptyString s.

(** [s.split(/\r?\n/u)]: a line feed, together with the carriage return
    right before it when there is one, separates two pieces. *)
Fixpoint splitLines_from (cur : string) (s : string) : list string :=
  match s with
  | EmptyString => [cur]
  | String c s' =>
      if Ascii.eqb c LF then cur :: splitLines_from EmptyString s'
      else if Ascii.eqb c CR then
        match s' with
        | String c' s'' =>
            if Ascii.eqb c' LF then cur :: splitLines_from EmptyString s''
            else splitLines_from (cur +:+ String c EmptyString) s'
        | EmptyString => splitLines_from (cur +:+ String c EmptyString) s'
        end
      else splitLines_from (cur +:+ String c EmptyString) s'
  end.
Definition splitLines (s : string) : list string := splitLines_from EmptyString s.

(** [parts.join(sep)] *)
Fixpoint join (sep : string) (parts : list string) : string :=
  match parts with
  | [] => EmptyString
  | [p] => p
  | p :: rest => p +:+ sep +:+ join sep rest
  end.

(** [s.contains("\r")] *)
Fixpoint containsChar (c : ascii) (s : string) : bool :=
  match s with
  | EmptyString => false
  | String d s' => Ascii.eqb c d || containsChar c s'
  end.

(** The default order of [Array.prototype.sort] on strings: by code units. *)
Fixpoint insertSorted (k : string) (l : list string) : list string :=
  match l with
  | [] => [k]
  | x :: l' => if String.leb k x then k :: l else x :: insertSorted k l'
  end.
Definition sort (l : list string) : list string := fold_right insertSorted [] l.

(** One order [String.prototype.localeCompare] can implement: the code
    unit order, with the results -1, 0 and 1.  The comparator takes the
    host's function as a parameter; this one runs it on concrete values. *)
Definition codeUnitCompare (a b : string) : Z :=
  match String.compare a b with
  | Lt => -1
  | Eq => 0
  | Gt => 1
  end.

End JS.

(** ** Link *)
Module Link.

Inductive LinkType := file_t | header_t | block_t.

(** The string a link type is at run time. *)
Definition typeName (t : LinkType) : string :=
  match t with
  | file_t => "file"
  | header_t => "header"
  | block_t => "block"
  end.

Record Link := mkLink {
  path : string;
  display : option string;
  subpath : option string;
  embed : bool;
  type : LinkType;
}.

(** [Link.file(path, embed = false, display?)] *)
Definition file (path : string) (embed : option bool) (display : option string) : Link :=
  {| path := path;
     embed := match embed with Some e => e | None => false end;
     display := display;
     subpath := None;
     type := file_t |}.

(** [==] on two values of type [string | undefined]. *)
Definition looseEqOpt (a b : option string) : bool :=
  match a, b with
  | None, None => true
  | Some x, Some y => String.eqb x y
  | _, _ => false
  end.

Definition typeEq (a b : LinkType) : bool :=
  String.eqb (typeName a) (typeName b).

(** [this.equals(other)]; [other] is [None] for [undefined] or [null]. *)
Definition equals (this : Link) (other : option Link) : bool :=
  match other with
  | None => false
  | Some other =>
      String.eqb (path this) (path other)
      && typeEq (type this) (type other)
      && looseEqOpt (subpath this) (subpath other)
  end.

(** The other constructors and the derivations of the class.  The field
    [embed] is read for its truthiness only, so a link built without it
    ([embed] left [undefined]) is the link whose [embed] is [false]. *)
Section Derivations.

(** [normalizeHeaderForLink] and [getFileTitle] of [util/normalize]. *)
Variable normalizeHeaderForLink : string -> string.
Variable getFileTitle : string -> string.

(** [Link.header(path, header, embed?, display?)] *)
Definition header (path header : string) (embed : option bool) (display : option string)
  : Link :=
  {| path := path;
     embed := match embed with Some e => e | None => false end;
     display := display;
     subpath := Some (normalizeHeaderForLink header);
     type := header_t |}.

(** [Link.block(path, blockId, embed?, display?)] *)
Definition block (path blockId : string) (embed : option bool) (display : option string)
  : Link :=
  {| path := path;
     embed := match embed with Some e => e | None => false end;
     display := display;
     subpath := Some blockId;
     type := block_t |}.

(** [this.withPath(path)] *)
Definition withPath (this : Link) (path : string) : Link :=
  {| path := path;
     embed := embed this;
     display := display this;
     subpath := subpath this;
     type := type this |}.

(** [this.withDisplay(display?)] *)
Definition withDisplay (this : Link) (display : option string) : Link :=
  {| path := path this;
     embed := embed this;
     display := display;
     subpath := subpath this;
     type := type this |}.

(** [this.withHeader(header)] *)
Definition withHeader (this : Link) (h : string) : Link :=
  header (path this) h (Some (embed this)) (display this).

(** [this.toFile()] *)
Definition toFile (this : Link) : Link :=
  file (path this) (Some (embed this)) (display this).

(** [this.toEmbed()] *)
Definition toEmbed (this : Link) : Link :=
  if embed this then this
  else
    {| path := path this;
       embed := true;
       display := display this;
       subpath := subpath this;
       type := type this |}.

(** Truthiness of [this.display], and [this.subpath] inside a string. *)
Definition shown (display : option string) : option string :=
  match display with
  | Some d => if String.eqb d "" then None else Some d
  | None => None
  end.
Definition subpathText (subpath : option string) : string :=
  match subpath with
  | Some s => s
  | None => "undefined"
  end.

(** [this.markdown()] *)
Definition markdown (this : Link) : string :=
  let result := (if embed this then "!" else "") +:+ "[[" +:+ path this in
  let result :=
    if typeEq (type this) header_t then result +:+ "#" +:+ subpathText (subpath this)
    else if typeEq (type this) block_t then result +:+ "#^" +:+ subpathText (subpath this)
    else result in
  let result :=
    match shown (display this) with
    | Some d => result +:+ "|" +:+ d
    | None =>
        let result := result +:+ "|" +:+ getFileTitle (path this) in
        if typeEq (type this) header_t || typeEq (type this) block_t
        then result +:+ " > " +:+ subpathText (subpath this)
        else result
    end in
  result +:+ "]]".

(** [this.toString()] *)
Definition toString (this : Link) : string := markdown this.

End Derivations.

End Link.

(** ** The two luxon classes the value model holds

    What the program uses of them is modelled: the number a value converts
    to under [<] ([valueOf], [NaN] for an invalid value), [toMillis] and
    [as("seconds")], and the class's own [equals].  A [DateTime] is an
    instant in a zone, with a locale; a [Duration] is a set of values for
    the nine units, with a locale.  The instant and the unit values are
    whole numbers; a unit that is not set is the unit 0 ([equals] holds
    them equal, and neither adds to the length); durations have the
    conversion accuracy they are made with by default ([casual]: a year of
    365 days, a quarter of 91, a month of 30). *)
Module Luxon.

(** A number of the host that can be [NaN] ([None]), under [<], [===] and
    [== 0]. *)
Definition lessThan (a b : option Z) : bool :=
  match a, b with
  | Some x, Some y => x <? y
  | _, _ => false
  end.
Definition strictEquals (a b : option Z) : bool :=
  match a, b with
  | Some x, Some y => x =? y
  | _, _ => false
  end.
Definition isZero (a : option Z) : bool :=
  match a with
  | Some x => x =? 0
  | None => false
  end.

(** [Locale]: the locale, the numbering system and the output calendar,
    the last two [null] unless set; and [Locale.equals]. *)
Record Locale := mkLocale {
  locale : string;
  numberingSystem : option string;
  outputCalendar : option string;
}.

Definition sameOption (a b : option string) : bool :=
  match a, b with
  | None, None => true
  | Some x, Some y => String.eqb x y
  | _, _ => false
  end.

Definition Locale_equals (a b : Locale) : bool :=
  String.eqb (locale a) (locale b)
  && sameOption (numberingSystem a) (numberingSystem b)
  && sameOption (outputCalendar a) (outputCalendar b).

Record DateTime := mkDateTime {
  ts : Z;
  zone : string;
  DateTime_loc : Locale;
  DateTime_isValid : bool;
}.

(** [toMillis()] and [valueOf()] of a date. *)
Definition DateTime_toMillis (d : DateTime) : option Z :=
  if DateTime_isValid d then Some (ts d) else None.
Definition DateTime_valueOf (d : DateTime) : option Z := DateTime_toMillis d.

(** [a.equals(b)] on two dates *)
Definition DateTime_equals (a b : DateTime) : bool :=
  DateTime_isValid a && DateTime_isValid b
  && strictEquals (DateTime_valueOf a) (DateTime_valueOf b)
  && String.eqb (zone a) (zone b)
  && Locale_equals (DateTime_loc a) (DateTime_loc b).

Record Duration := mkDuration {
  years : Z; quarters : Z; months : Z; weeks : Z; days : Z;
  hours : Z; minutes : Z; seconds : Z; milliseconds : Z;
  Duration_loc : Locale;
  Duration_isValid : bool;
}.

(** The length of a duration in milliseconds, by the [casual] conversions. *)
Definition Duration_length (d : Duration) : Z :=
  (((((years d * 365 + quarters d * 91 + months d * 30 + weeks d * 7 + days d) * 24
      + hours d) * 60 + minutes d) * 60 + seconds d) * 1000 + milliseconds d).

(** [as("milliseconds")] and [valueOf()] of a duration. *)
Definition Duration_toMillis (d : Duration) : option Z :=
  if Duration_isValid d then Some (Duration_length d) else None.
Definition Duration_valueOf (d : Duration) : option Z := Duration_toMillis d.

(** [a.equals(b)] on two durations: both valid, of one locale, and equal
    unit by unit. *)
Definition Duration_equals (a b : Duration) : bool :=
  Duration_isValid a && Duration_isValid b
  && Locale_equals (Duration_loc a) (Duration_loc b)
  && (years a =? years b) && (quarters a =? quarters b) && (months a =? months b)
  && (weeks a =? weeks b) && (days a =? days b)
  && (hours a =? hours b) && (minutes a =? minutes b)
  && (seconds a =? seconds b) && (milliseconds a =? milliseconds b).

(** Whether [as("seconds")] of a duration, its length in seconds, is zero. *)
Definition Duration_isZeroSeconds (d : Duration) : bool := isZero (Duration_toMillis d).

(** The zone and the locale that values made under one setting of the
    library have. *)
Record Settings := mkSettings {
  defaultZone : string;
  defaultLocale : Locale;
}.

End Luxon.

(** ** Values *)
Module Values.

(** The run-time values the functions of [Values] receive.  [Literal] of
    the source is the union of the tags from [LNull] to [LFunction]; the
    functions take [any], so [undefined] and a value of no tag (a symbol)
    are values too.  An object is the list of its own properties, in the
    order [Object.keys] lists them; [LHtml] and [LFunction] carry the
    identity of the opaque host object. *)
Inductive Literal :=
| LUndefined
| LNull
| LBoolean (b : bool)
| LNumber (n : float)
| LString (s : string)
| LDate (d : Luxon.DateTime)
| LDuration (d : Luxon.Duration)
| LLink (l : Link.Link)
| LArray (l : list Literal)
| LObject (o : list (string * Literal))
| LHtml (node : nat)
| LFunction (fn : nat)
| LSymbol (description : string).

Inductive LiteralType :=
| TBoolean | TNumber | TString | TDate | TDuration | TLink
| TArray | TObject | THtml | TFunction | TNull.

(** The string a [LiteralType] is at run time. *)
Definition typeName (t : LiteralType) : string :=
  match t with
  | TBoolean => "boolean"
  | TNumber => "number"
  | TString => "string"
  | TDate => "date"
  | TDuration => "duration"
  | TLink => "link"
  | TArray => "array"
  | TObject => "object"
  | THtml => "html"
  | TFunction => "function"
  | TNull => "null"
  end.

Record WrappedLiteral := mkWrapped { type : LiteralType; value : Literal }.

(** The [typeof] operator. *)
Definition typeof (val : Literal) : string :=
  match val with
  | LUndefined => "undefined"
  | LBoolean _ => "boolean"
  | LNumber _ => "number"
  | LString _ => "string"
  | LFunction _ => "function"
  | LSymbol _ => "symbol"
  | LNull | LDate _ | LDuration _ | LLink _ | LArray _ | LObject _ | LHtml _ => "object"
  end.

Definition isString (val : Literal) : bool := String.eqb (typeof val) "string".
Definition isNumber (val : Literal) : bool := String.eqb (typeof val) "number".
Definition isDate (val : Literal) : bool :=
  match val with LDate _ => true | _ => false end.
Definition isDuration (val : Literal) : bool :=
  match val with LDuration _ => true | _ => false end.
Definition isNull (val : Literal) : bool :=
  match val with LNull | LUndefined => true | _ => false end.
Definition isArray (val : Literal) : bool :=
  match val with LArray _ => true | _ => false end.
Definition isBoolean (val : Literal) : bool := String.eqb (typeof val) "boolean".
Definition isLink (val : Literal) : bool :=
  match val with LLink _ => true | _ => false end.
Definition isHtml (val : Literal) : bool :=
  match val with LHtml _ => true | _ => false end.
Definition isObject (val : Literal) : bool :=
  String.eqb (typeof val) "object"
  && negb (isHtml val) && negb (isArray val) && negb (isDuration val)
  && negb (isDate val) && negb (isLink val).
Definition isFunction (val : Literal) : bool := String.eqb (typeof val) "function".

(** [wrapValue(val)]; [None] is [undefined]. *)
Definition wrapValue (val : Literal) : option WrappedLiteral :=
  if isNull val then Some (mkWrapped TNull val)
  else if isNumber val then Some (mkWrapped TNumber val)
  else if isString val then Some (mkWrapped TString val)
  else if isBoolean val then Some (mkWrapped TBoolean val)
  else if isDuration val then Some (mkWrapped TDuration val)
  else if isDate val then Some (mkWrapped TDate val)
  else if isHtml val then Some (mkWrapped THtml val)
  else if isArray val then Some (mkWrapped TArray val)
  else if isLink val then Some (mkWrapped TLink val)
  else if isFunction val then Some (mkWrapped TFunction val)
  else if isObject val then Some (mkWrapped TObject val)
  else None.

(** [typeOf(val)] *)
Definition typeOf (val : Literal) : option LiteralType :=
  option_map type (wrapValue val).

(** The casts [wrap.value as T] of a [switch] branch. *)
Definition asString (v : Literal) : string :=
  match v with LString s => s | _ => "" end.
Definition asNumber (v : Literal) : float :=
  match v with LNumber n => n | _ => nan end.
Definition asBoolean (v : Literal) : bool :=
  match v with LBoolean b => b | _ => false end.
Definition asLink (v : Literal) : Link.Link :=
  match v with LLink l => l | _ => Link.file "" None None end.
Definition asDate (v : Literal) : Luxon.DateTime :=
  match v with
  | LDate d => d
  | _ => Luxon.mkDateTime 0 "" (Luxon.mkLocale "" None None) false
  end.
Definition asDuration (v : Literal) : Luxon.Duration :=
  match v with
  | LDuration d => d
  | _ => Luxon.mkDuration 0 0 0 0 0 0 0 0 0 (Luxon.mkLocale "" None None) false
  end.
Definition asArray (v : Literal) : list Literal :=
  match v with LArray l => l | _ => [] end.
Definition asObject (v : Literal) : list (string * Literal) :=
  match v with LObject o => o | _ => [] end.

(** [Object.keys(o)] and [o[key]] on a plain object. *)
Definition keys (o : list (string * Literal)) : list string := map fst o.
Fixpoint get (o : list (string * Literal)) (key : string) : Literal :=
  match o with
  | [] => LUndefined
  | (k, v) :: o' => if String.eqb k key then v else get o' key
  end.

(** Truthiness of a [string | undefined]. *)
Definition truthy (s : option string) : bool :=
  match s with
  | Some s => negb (String.eqb s "")
  | None => false
  end.

Definition typeEqb (a b : LiteralType) : bool :=
  String.eqb (typeName a) (typeName b).

Section Compare.

(** [String.prototype.localeCompare] of the host, in the locale the
    program runs in. *)
Variable localeCompare : string -> string -> Z.

(** The array loop of [compareValue]: the first non-zero comparison
    over the common indices, if any. *)
Fixpoint firstDifference (cmp : Literal -> Literal -> Z) (f1 f2 : list Literal)
  : option Z :=
  match f1, f2 with
  | x :: f1', y :: f2' =>
      let comp := cmp x y in
      if negb (comp =? 0) then Some comp else firstDifference cmp f1' f2'
  | _, _ => None
  end.

Definition compareArrays (cmp : Literal -> Literal -> Z) (f1 f2 : list Literal) : Z :=
  match firstDifference cmp f1 f2 with
  | Some comp => comp
  | None => Z.of_nat (length f1) - Z.of_nat (length f2)
  end.

(** The loop [for (let key of k1)] of the object case. *)
Fixpoint compareProperties (cmp : Literal -> Literal -> Z)
  (o1 o2 : list (string * Literal)) (k1 : list string) : Z :=
  match k1 with
  | [] => 0
  | key :: k1' =>
      let comp := cmp (get o1 key) (get o2 key) in
      if negb (comp =? 0) then comp else compareProperties cmp o1 o2 k1'
  end.

Definition compareLinks (normalize : string -> string) (link1 link2 : Link.Link) : Z :=
  let pathCompare := localeCompare (normalize (Link.path link1)) (normalize (Link.path link2)) in
  if negb (pathCompare =? 0) then pathCompare
  else
    let typeCompare :=
      localeCompare (Link.typeName (Link.type link1)) (Link.typeName (Link.type link2)) in
    if negb (typeCompare =? 0) then typeCompare
    else if truthy (Link.subpath link1) && negb (truthy (Link.subpath link2)) then 1
    else if negb (truthy (Link.subpath link1)) && truthy (Link.subpath link2) then -1
    else if negb (truthy (Link.subpath link1)) && negb (truthy (Link.subpath link2)) then 0
    else localeCompare (default "" (Link.subpath link1)) (default "" (Link.subpath link2)).

(** The body of [compareValue], with [self] for the recursive calls
    (which pass no link normalizer). *)
Definition compareValue_body (self : Literal -> Literal -> Z)
  (val1 val2 : Literal) (linkNormalizer : option (string -> string)) : Z :=
  let val1 := match val1 with LUndefined => LNull | _ => val1 end in
  let val2 := match val2 with LUndefined => LNull | _ => val2 end in
  match val1, val2 with
  | LNull, LNull => 0
  | LNull, _ => 1
  | _, LNull => -1
  | _, _ =>
    match wrapValue val1, wrapValue val2 with
    | None, None => 0
    | None, Some _ => 1
    | Some _, None => -1
    | Some wrap1, Some wrap2 =>
      if negb (typeEqb (type wrap1) (type wrap2))
      then localeCompare (typeName (type wrap1)) (typeName (type wrap2))
      else
        match type wrap1 with
        | TString => localeCompare (asString (value wrap1)) (asString (value wrap2))
        | TNumber =>
            if PrimFloat.ltb (asNumber (value wrap1)) (asNumber (value wrap2)) then -1
            else if PrimFloat.eqb (asNumber (value wrap1)) (asNumber (value wrap2)) then 0
            else 1
        | TNull => 0
        | TBoolean =>
            if Bool.eqb (asBoolean (value wrap1)) (asBoolean (value wrap2)) then 0
            else if asBoolean (value wrap1) then 1 else -1
        | TLink =>
            let link1 := asLink (value wrap1) in
            let link2 := asLink (value wrap2) in
            let normalize := default (fun x : string => x) linkNormalizer in
            compareLinks normalize link1 link2
        | TDate =>
            if Luxon.lessThan (Luxon.DateTime_valueOf (asDate (value wrap1)))
                 (Luxon.DateTime_valueOf (asDate (value wrap2))) then -1
            else if Luxon.DateTime_equals (asDate (value wrap1)) (asDate (value wrap2)) then 0
            else 1
        | TDuration =>
            if Luxon.lessThan (Luxon.Duration_valueOf (asDuration (value wrap1)))
                 (Luxon.Duration_valueOf (asDuration (value wrap2))) then -1
            else if Luxon.Duration_equals (asDuration (value wrap1)) (asDuration (value wrap2))
            then 0
            else 1
        | TArray =>
            let f1 := asArray (value wrap1) in
            let f2 := asArray (value wrap2) in
            compareArrays self f1 f2
        | TObject =>
            let o1 := asObject (value wrap1) in
            let o2 := asObject (value wrap2) in
            let k1 := JS.sort (keys o1) in
            let k2 := JS.sort (keys o2) in
            let keyCompare := self (LArray (map LString k1)) (LArray (map LString k2)) in
            if negb (keyCompare =? 0) then keyCompare
            else compareProperties self o1 o2 k1
        | THtml => 0
        | TFunction => 0
        end
    end
  end.

(** The recursion of [compareValue] descends into the values it is
    given; [fuel] bounds the nesting it can enter. *)
Fixpoint compareValue_fuel (fuel : nat) (val1 val2 : Literal)
  (linkNormalizer : option (string -> string)) : Z :=
  match fuel with
  | O => 0
  | S fuel' =>
      compareValue_body (fun a b => compareValue_fuel fuel' a b None)
        val1 val2 linkNormalizer
  end.

(** The nesting of a value: what [compareValue] needs to compare it. *)
Fixpoint depth (v : Literal) : nat :=
  match v with
  | LArray l => S (list_max (map depth l))
  | LObject o => S (S (list_max (map (fun kv => depth (snd kv)) o)))
  | _ => 1
  end.

(** [compareValue(val1, val2, linkNormalizer?)] *)
Definition compareValue (val1 val2 : Literal)
  (linkNormalizer : option (string -> string)) : Z :=
  compareValue_fuel (depth val1) val1 val2 linkNormalizer.

End Compare.

End Values.

(** ** Exceptions

    A call either returns or throws; [&&] and the loops of the source stop
    at the first throw. *)
Inductive Error :=
| TypeError (message : string)
| IOError (message : string).

Inductive Result (A : Type) :=
| Return (a : A)
| Throw (e : Error).
Arguments Return {A} a.
Arguments Throw {A} e.

#[global] Instance Result_ret : MRet Result := fun A a => Return a.
#[global] Instance Result_bind : MBind Result := fun A B k r =>
  match r with
  | Return a => k a
  | Throw e => Throw e
  end.

(** ** Values: truthiness, copies and maps over the leaves *)
Module ValueOps.
Import Values.

(** What a map or a copy returns: a value, or an object whose prototype
    an assignment to ["__proto__"] has replaced by another object (or a
    value that holds such an object), which is no [Literal]. *)
Inductive Returned :=
| Value (v : Literal)
| Rebased.

(** The values that are objects for the language, functions among them:
    all but [undefined], [null], booleans, numbers, strings and symbols. *)
Definition isObjectType (v : Literal) : bool :=
  match v with
  | LUndefined | LNull | LBoolean _ | LNumber _ | LString _ | LSymbol _ => false
  | _ => true
  end.

(** An own property of a plain object is overwritten where it is, or added
    behind the others. *)
Fixpoint setOwn (result : list (string * Literal)) (key : string) (v : Literal)
  : list (string * Literal) :=
  match result with
  | [] => [(key, v)]
  | (k, x) :: result' =>
      if String.eqb k key then (k, v) :: result' else (k, x) :: setOwn result' key v
  end.

(** [result[key] = v] on an object made as [{}], given by its own
    properties, or [None] once its prototype is replaced.  The key
    ["__proto__"] names the accessor of [Object.prototype], and its setter
    adds no own property: given an object it makes it the prototype of
    [result]; given [null] it leaves [result] without a prototype, which
    nothing here looks at; anything else it ignores. *)
Definition set (result : option (list (string * Literal))) (key : string) (v : Returned)
  : option (list (string * Literal)) :=
  match result, v with
  | Some own, Value v =>
      if String.eqb key "__proto__" then
        if isObjectType v then None else Some own
      else Some (setOwn own key v)
  | _, _ => None
  end.

(** [result.push(v)] *)
Definition push (result : option (list Literal)) (v : Returned) : option (list Literal) :=
  match result, v with
  | Some elements, Value v => Some (elements ++ [v])%list
  | _, _ => None
  end.

(** The elements of an array of the host, if they are all values. *)
Fixpoint values (elements : list Returned) : option (list Literal) :=
  match elements with
  | [] => Some []
  | Value v :: rest => option_map (cons v) (values rest)
  | Rebased :: _ => None
  end.

(** The object, and the array, that is returned. *)
Definition object (result : option (list (string * Literal))) : Returned :=
  match result with
  | Some own => Value (LObject own)
  | None => Rebased
  end.
Definition array (result : option (list Literal)) : Returned :=
  match result with
  | Some elements => Value (LArray elements)
  | None => Rebased
  end.

(** [Object.entries(val)]: a [TypeError] on [null] and [undefined]; the
    callers pass it what [isObject] accepts, [null] or a plain object. *)
Definition Object_entries (val : Literal) : Result (list (string * Literal)) :=
  match val with
  | LNull | LUndefined => Throw (TypeError "Cannot convert undefined or null to object")
  | _ => Return (asObject val)
  end.

Section Loops.
Context {M : Type -> Type} {Mret : MRet M} {Mbind : MBind M}.
Variable self : Literal -> M Returned.

(** [for (let [key, value] of entries) result[key] = self(value)] *)
Fixpoint mapEntries (entries : list (string * Literal))
  (result : option (list (string * Literal))) : M (option (list (string * Literal))) :=
  match entries with
  | [] => mret result
  | (key, value) :: rest => r ← self value; mapEntries rest (set result key r)
  end.

(** [for (let value of val) result.push(self(value))] *)
Fixpoint mapElements (val : list Literal) (result : option (list Literal))
  : M (option (list Literal)) :=
  match val with
  | [] => mret result
  | value :: rest => r ← self value; mapElements rest (push result r)
  end.

End Loops.

(** The body of [mapLeaves], with [self] for the recursive calls. *)
Definition mapLeaves_body (self : Literal -> Result Returned) (val : Literal)
  (func : Literal -> Literal) : Result Returned :=
  if isObject val then
    entries ← Object_entries val;
    result ← mapEntries self entries (Some []);
    Return (object result)
  else if isArray val then
    result ← mapElements self (asArray val) (Some []);
    Return (array result)
  else Return (Value (func val)).

(** [mapLeaves(val, func)], by recursion on [val]: [isObject] accepts
    [null], on which [Object.entries] throws. *)
Fixpoint mapLeaves (val : Literal) (func : Literal -> Literal) : Result Returned :=
  match val with
  | LObject o =>
      result ← mapEntries (fun value => mapLeaves value func) o (Some []);
      Return (object result)
  | LArray l =>
      result ← mapElements (fun value => mapLeaves value func) l (Some []);
      Return (array result)
  | LNull => Throw (TypeError "Cannot convert undefined or null to object")
  | _ => Return (Value (func val))
  end.

(** The identity monad, for the loops of a function that does not throw. *)
Definition Id (A : Type) : Type := A.
#[global] Instance Id_ret : MRet Id := fun A a => a.
#[global] Instance Id_bind : MBind Id := fun A B k a => k a.

(** The body of [deepCopy], with [self] for the recursive calls. *)
Definition deepCopy_body (self : Literal -> Returned) (field : Literal) : Returned :=
  match field with
  | LNull | LUndefined => Value field
  | _ =>
      if isArray field then
        array (option_map (app []) (values (map self (asArray field))))
      else if isObject field then
        object (mapEntries (M := Id) self (asObject field) (Some []))
      else Value field
  end.

(** [deepCopy(field)], by recursion on [field]. *)
Fixpoint deepCopy (field : Literal) : Returned :=
  match field with
  | LArray l => array (option_map (app []) (values (map deepCopy l)))
  | LObject o => object (mapEntries (M := Id) deepCopy o (Some []))
  | _ => Value field
  end.

(** [isTruthy(field)] *)
Definition isTruthy (field : Literal) : bool :=
  match wrapValue field with
  | None => false
  | Some wrapped =>
      match type wrapped with
      | TNumber => negb (PrimFloat.eqb (asNumber (value wrapped)) 0%float)
      | TString => (0 <? String.length (asString (value wrapped)))%nat
      | TBoolean => asBoolean (value wrapped)
      | TLink => negb (String.eqb (Link.path (asLink (value wrapped))) "")
      | TDate => negb (Luxon.isZero (Luxon.DateTime_toMillis (asDate (value wrapped))))
      | TDuration => negb (Luxon.Duration_isZeroSeconds (asDuration (value wrapped)))
      | TObject => (0 <? length (keys (asObject (value wrapped))))%nat
      | TArray => (0 <? length (asArray (value wrapped)))%nat
      | TNull => false
      | THtml => true
      | TFunction => true
      end
  end.

End ValueOps.

(** ** Groupings *)
Module Groupings.
Import Values.

(** The names under which a value that is no plain object holds
    properties: the indices of an array, the fields of a [Link], of a
    [DateTime] and of a [Duration]. *)
Definition ownKeys (val : Literal) : list string :=
  match val with
  | LObject o => keys o
  | LArray l => map (fun i : nat => pretty i) (seq 0 (length l))
  | LLink _ => ["path"; "embed"; "display"; "subpath"; "type"]
  | LDate _ => ["ts"; "zone"]
  | LDuration _ => ["hours"; "minutes"; "seconds"; "milliseconds"]
  | _ => []
  end.

(** [Object.keys(val)]: a [TypeError] on [null] and [undefined]. *)
Definition Object_keys (val : Literal) : Result (list string) :=
  match val with
  | LNull | LUndefined => Throw (TypeError "Cannot convert undefined or null to object")
  | _ => Return (ownKeys val)
  end.

(** [key in val]: a [TypeError] when [val] is not an object. *)
Definition hasProperty (key : string) (val : Literal) : Result bool :=
  match val with
  | LNull | LUndefined | LBoolean _ | LNumber _ | LString _ | LSymbol _ =>
      Throw (TypeError "Cannot use 'in' operator to search for a key in a non-object")
  | _ => Return (existsb (String.eqb key) (ownKeys val))
  end.

(** [isElementGroup(entry)] *)
Definition isElementGroup (entry : Literal) : Result bool :=
  if isObject entry then
    ks ← Object_keys entry;
    if (length (ks : list string) =? 2)%nat then
      hasKey ← hasProperty "key" entry;
      if (hasKey : bool) then hasProperty "rows" entry else Return false
    else Return false
  else Return false.

(** [isGrouping(entry)] *)
Fixpoint isGrouping (entry : list Literal) : Result bool :=
  match entry with
  | [] => Return true
  | element :: rest =>
      g ← isElementGroup element;
      if negb (g : bool) then Return false else isGrouping rest
  end.

End Groupings.

(** ** The vault

    The documents by path, the reads and writes asked of the host so far,
    and the writes the host refuses.  A read of a path that holds no
    document is rejected; a write the host refuses is rejected and leaves
    the documents as they are. *)
Module Vault.

Inductive IOEvent :=
| ReadEvent (path : string)
| WriteEvent (path : string) (data : string).

Record Vault := mkVault {
  files : gmap string string;
  io : list IOEvent;
  refuses : string -> string -> bool;
}.

(** [vault.adapter.read(path)] *)
Definition read (vault : Vault) (path : string) : Vault * option string :=
  (mkVault (files vault) (io vault ++ [ReadEvent path])%list (refuses vault),
   files vault !! path).

(** [vault.adapter.write(path, data)]: the vault, and whether the write is
    fulfilled. *)
Definition write (vault : Vault) (path data : string) : Vault * bool :=
  let asked := (io vault ++ [WriteEvent path data])%list in
  if refuses vault path data then (mkVault (files vault) asked (refuses vault), false)
  else (mkVault (<[path := data]> (files vault)) asked (refuses vault), true).

Definition isWrite (e : IOEvent) : bool :=
  match e with
  | WriteEvent _ _ => true
  | ReadEvent _ => false
  end.

End Vault.

(** ** Task view: de-duplication and manipulation of tasks *)
Module TaskView.
Import Vault.

(** A list item of the index ([SListItem], [STask]), with the fields the
    functions below read. *)
Inductive SListItem := mkSListItem {
  path : string;
  line : nat;
  lineCount : nat;
  text : string;
  symbol : string;
  status : string;
  children : list SListItem;
}.

(** [listId(item)] *)
Definition listId (item : SListItem) : string :=
  path item +:+ ":" +:+ pretty (line item).

(** [listChildren(item, output?)]: the set [output] is filled in place
    and returned; here it is passed along. *)
Fixpoint listChildren_into (item : SListItem) (output : gset string) : gset string :=
  match item with
  | mkSListItem _ _ _ _ _ _ cs =>
      fold_left
        (fun output child => listChildren_into child (output ∪ {[ listId child ]}))
        cs output
  end.

Definition listChildren (item : SListItem) (output : option (gset string)) : gset string :=
  listChildren_into item (default ∅ output).

(** The loop of [nestItems] over [raw]: the sets [seen] and [mask]. *)
Fixpoint nestItems_loop (raw : list SListItem) (seen mask : gset string)
  : gset string * gset string :=
  match raw with
  | [] => (seen, mask)
  | item :: raw' =>
      let seen := listChildren item (Some seen) in
      let mask := mask ∪ {[ listId item ]} in
      nestItems_loop raw' seen mask
  end.

(** [nestItems(raw)] *)
Definition nestItems (raw : list SListItem) : list SListItem * gset string :=
  let '(seen, mask) := nestItems_loop raw ∅ ∅ in
  (filter (fun t => listId t ∉ seen) raw, mask).

(** The loop [while (trim > 0 && parts[trim].trim() == "") trim--]. *)
Fixpoint trimIndex (parts : list string) (trim : nat) : nat :=
  match trim with
  | O => O
  | S trim' =>
      if String.eqb (JS.trim (nth trim parts "")) "" then trimIndex parts trim'
      else trim
  end.

(** [trimEndingLines(text)] *)
Definition trimEndingLines (text : string) : string :=
  let parts := JS.splitLines text in
  let trim := trimIndex parts (length parts - 1) in
  JS.join (String JS.LF "") parts.

Section Completion.

(** [setInlineField(text, key, value?)] of [data-import/inline-field],
    and the date [DateTime.now().toISODate()] gives. *)
Variable setInlineField : string -> string -> option string -> string.
Variable today : string.

(** [setTaskCompletion(originalText, completionKey, complete)] *)
Definition setTaskCompletion (originalText completionKey : string) (complete : bool)
  : string :=
  if negb complete then trimEndingLines (setInlineField originalText completionKey None)
  else
    let parts := JS.splitLines originalText in
    let last := (length parts - 1)%nat in
    let parts :=
      <[ last := setInlineField (nth last parts "") completionKey (Some today) ]> parts in
    JS.join (String JS.LF "") parts.

End Completion.

(** What [LIST_ITEM_REGEX.exec] returns on a match: the groups 1 to 3,
    each [None] when it took no part in the match. *)
Record RegExpMatch := mkMatch {
  group1 : option string;
  group2 : option string;
  group3 : option string;
}.

(** How a call of the asynchronous [rewriteTask] ends. *)
Inductive Outcome :=
| Resolved
| Rejected (e : Error).

(** [filetext[i]] as a string argument: [undefined] reads "undefined". *)
Definition lineAt (filetext : list string) (i : nat) : string :=
  nth i filetext "undefined".

(** [filetext.splice(start, deleteCount, ...items)] for [start] up to the
    length of [filetext]. *)
Definition splice (filetext : list string) (start deleteCount : nat) (items : list string)
  : list string :=
  (take start filetext ++ items ++ drop (start + deleteCount) filetext)%list.

(** [filetext[i] = v]: past the end the array grows, and the holes left
    join as empty strings. *)
Definition assign (filetext : list string) (i : nat) (v : string) : list string :=
  if (i <? length filetext)%nat then <[ i := v ]> filetext
  else (filetext ++ replicate (i - length filetext) "" ++ [v])%list.

(** Truthiness of [desiredText]. *)
Definition supplied (desiredText : option string) : option string :=
  match desiredText with
  | Some t => if String.eqb t "" then None else Some t
  | None => None
  end.

Section Rewrite.

(** [LIST_ITEM_REGEX.exec] of [data-import/markdown-file]. *)
Variable LIST_ITEM_REGEX_exec : string -> option RegExpMatch.

(** The first line of the rewritten task:
    [`${initialSpacing}${task.symbol} [${desiredStatus}] ${first}`]. *)
Definition taskLine (initialSpacing symbol desiredStatus first : string) : string :=
  initialSpacing +:+ symbol +:+ " [" +:+ desiredStatus +:+ "] " +:+ first.

(** [rewriteTask(vault, task, desiredStatus, desiredText?)] *)
Definition rewriteTask (vault : Vault) (task : SListItem) (desiredStatus : string)
  (desiredText : option string) : Vault * Outcome :=
  if String.eqb desiredStatus (status task)
     && match desiredText with
        | None => true
        | Some t => String.eqb t (text task)
        end
  then (vault, Resolved)
  else
    let desiredStatus := if String.eqb desiredStatus "" then " " else desiredStatus in
    match read vault (path task) with
    | (vault, None) => (vault, Rejected (IOError "read rejected"))
    | (vault, Some rawFiletext) =>
      let hasRN := JS.containsChar JS.CR rawFiletext in
      let filetext := JS.splitLines rawFiletext in
      if (length filetext <? line task)%nat then (vault, Resolved)
      else
        match LIST_ITEM_REGEX_exec (lineAt filetext (line task)) with
        | None => (vault, Resolved)
        | Some m =>
          match group2 m with
          | None => (vault, Rejected (TypeError "match[2] is undefined"))
          | Some g2 =>
            if (String.length g2 =? 0)%nat then (vault, Resolved)
            else
              let taskTextParts := JS.splitLF (text task) in
              match group3 m with
              | None => (vault, Rejected (TypeError "match[3] is undefined"))
              | Some g3 =>
                if negb (String.eqb (JS.trim (nth 0 taskTextParts "")) (JS.trim g3))
                then (vault, Resolved)
                else
                  let initialSpacing := JS.leadingSpace (lineAt filetext (line task)) in
                  let filetext :=
                    match supplied desiredText with
                    | Some desiredText =>
                        let desiredParts := JS.splitLF desiredText in
                        let newTextLines :=
                          ([taskLine initialSpacing (symbol task) desiredStatus
                              (nth 0 desiredParts "")]
                           ++ map (fun l => initialSpacing +:+ String JS.TAB "" +:+ l)
                                (tail desiredParts))%list in
                        splice filetext (line task) (lineCount task) newTextLines
                    | None =>
                        assign filetext (line task)
                          (taskLine initialSpacing (symbol task) desiredStatus
                             (JS.trim (nth 0 taskTextParts "")))
                    end in
                  let newText :=
                    JS.join (if hasRN then String JS.CR (String JS.LF "") else String JS.LF "")
                      filetext in
                  match write vault (path task) newText with
                  | (vault, true) => (vault, Resolved)
                  | (vault, false) => (vault, Rejected (IOError "write rejected"))
                  end
              end
          end
        end
    end.

End Rewrite.

(** Modelled from the spec: the list-item grammar [LIST_ITEM_REGEX] of
    [data-import/markdown-file], which the sources at hand do not hold:
    leading white space, a marker ([-], [*], [+] or a numbered-list
    token), an optional checkbox of one status character between
    brackets, then the body text.  Group 1 is the marker, group 2 the
    checkbox, group 3 the body. *)
Definition isDigit (c : ascii) : bool :=
  (48 <=? nat_of_ascii c)%nat && (nat_of_ascii c <=? 57)%nat.

Fixpoint digits (s : string) : string * string :=
  match s with
  | String c s' =>
      if isDigit c then let '(d, rest) := digits s' in (String c d, rest)
      else (EmptyString, s)
  | EmptyString => (EmptyString, EmptyString)
  end.

Definition marker (s : string) : option (string * string) :=
  match s with
  | String c s' =>
      if Ascii.eqb c "-" || Ascii.eqb c "*" || Ascii.eqb c "+"
      then Some (String c EmptyString, s')
      else
        match digits s with
        | (EmptyString, _) => None
        | (d, String c' rest) =>
            if Ascii.eqb c' "." then Some (d +:+ ".", rest) else None
        | (_, EmptyString) => None
        end
  | EmptyString => None
  end.

Definition checkbox (s : string) : option string * string :=
  match s with
  | String open (String c (String close rest)) =>
      if Ascii.eqb open "[" && Ascii.eqb close "]"
      then (Some (String open (String c (String close EmptyString))), rest)
      else (None, s)
  | _ => (None, s)
  end.

Definition listItemGrammar_exec (s : string) : option RegExpMatch :=
  match marker (JS.trimStart s) with
  | None => None
  | Some (m, rest) =>
      let '(box, rest) := checkbox (JS.trimStart rest) in
      Some (mkMatch (Some m) box (Some (JS.trimStart rest)))
  end.

End TaskView.

(** ** The plugin API: comparisons and loads *)
Module DataviewApi.
Import Values.

Section Comparisons.
Variable localeCompare : string -> string -> Z.

(** [DataviewApi.compare(a, b)] *)
Definition compare (a b : Literal) : Z := compareValue localeCompare a b None.

(** [DataviewApi.equal(a, b)] *)
Definition equal (a b : Literal) : bool := compare a b =? 0.

End Comparisons.

(** [DataviewApi.fileLink(path, embed = false, display?)] *)
Definition fileLink (path : string) (embed : option bool) (display : option string)
  : Link.Link :=
  Link.file path embed display.

(** How a load ends: with the text read, with the [Error] the type check
    throws, or with the rejection of the read. *)
Inductive LoadOutcome :=
| Fulfilled (data : string)
| Failed (message : string)
| ReadRejected.

Section IO.

(** [index.prefix.resolveRelative(path, origin?)] of the index. *)
Variable resolveRelative : string -> option string -> string.

(** [DataviewIOApi.normalize(path, originFile?)] *)
Definition normalize (path : Literal) (originFile : option string) : string :=
  let realPath := if isLink path then Link.path (asLink path) else asString path in
  resolveRelative realPath originFile.

(** [DataviewIOApi.load(path, originFile?)] *)
Definition load (vault : Vault.Vault) (path : Literal) (originFile : option string)
  : Vault.Vault * LoadOutcome :=
  if negb (isLink path) && negb (isString path) then
    (vault,
     Failed ("dv.io.load only handles string or link paths; was provided type '"
             +:+ typeof path +:+ "'."))
  else
    match Vault.read vault (normalize path originFile) with
    | (vault, Some data) => (vault, Fulfilled data)
    | (vault, None) => (vault, ReadRejected)
    end.

End IO.

End DataviewApi.

(** ** Sample data *)
Module Sample.
Import TaskView.

(** A root item at line 0 of "a.md" and its child at line 1. *)
Definition C1 : SListItem := mkSListItem "a.md" 1 1 "water plants" "-" " " [].
Definition R1 : SListItem := mkSListItem "a.md" 0 2 "garden" "-" " " [C1].

(** The document ["- [ ] buy milk\n"] and its only task. *)
Definition milkDocument : string := "- [ ] buy milk" +:+ String JS.LF "".
Definition milkVault : Vault.Vault :=
  Vault.mkVault {[ "list.md" := milkDocument ]} [] (fun _ _ => false).
Definition milkTask : SListItem :=
  mkSListItem "list.md" 0 1 "buy milk" "-" " " [].

(** The same node, read before the document changed from "buy bread". *)
Definition staleTask : SListItem :=
  mkSListItem "list.md" 0 1 "buy bread" "-" " " [].

(** The same document in a vault whose host refuses every write. *)
Definition lockedVault : Vault.Vault :=
  Vault.mkVault {[ "list.md" := milkDocument ]} [] (fun _ _ => true).

(** The task behind a no-break space, and its node, whose text ends in a
    no-break space. *)
Definition nbspDocument : string := String JS.NBSP "- [ ] buy milk".
Definition nbspVault : Vault.Vault :=
  Vault.mkVault {[ "list.md" := nbspDocument ]} [] (fun _ _ => false).
Definition nbspTask : SListItem :=
  mkSListItem "list.md" 0 1 ("buy milk" +:+ String JS.NBSP "") "-" " " [].

(** A checkbox with nothing behind it, and its node, whose text is empty. *)
Definition bareDocument : string := "- [ ]".
Definition bareVault : Vault.Vault :=
  Vault.mkVault {[ "list.md" := bareDocument ]} [] (fun _ _ => false).
Definition bareTask : SListItem :=
  mkSListItem "list.md" 0 1 "" "-" " " [].

(** A task of two lines, indented by a tab, before another task; its node;
    and a text of three lines to replace it with. *)
Definition packDocument : string :=
  String JS.TAB "- [ ] pack" +:+ String JS.LF ""
  +:+ String JS.TAB "  bags" +:+ String JS.LF ""
  +:+ "- [ ] leave".
Definition packVault : Vault.Vault :=
  Vault.mkVault {[ "trip.md" := packDocument ]} [] (fun _ _ => false).
Definition packTask : SListItem :=
  mkSListItem "trip.md" 0 2 ("pack" +:+ String JS.LF "bags") "-" " " [].
Definition packReplacement : string :=
  "pack" +:+ String JS.LF "bags" +:+ String JS.LF "keys".
Definition packedDocument : string :=
  String JS.TAB "- [X] pack" +:+ String JS.LF ""
  +:+ String JS.TAB (String JS.TAB "bags") +:+ String JS.LF ""
  +:+ String JS.TAB (String JS.TAB "keys") +:+ String JS.LF ""
  +:+ "- [ ] leave".

(** The setting the sample dates and durations are made under, a date and
    a duration of ninety minutes made under it, and the like in another
    locale or invalid. *)
Definition english : Luxon.Locale := Luxon.mkLocale "en-US" None None.
Definition french : Luxon.Locale := Luxon.mkLocale "fr" None None.
Definition settings : Luxon.Settings := Luxon.mkSettings "UTC" english.
Definition epoch : Luxon.DateTime := Luxon.mkDateTime 0 "UTC" english true.
Definition epochInParis : Luxon.DateTime := Luxon.mkDateTime 0 "Europe/Paris" english true.
Definition epochInFrench : Luxon.DateTime := Luxon.mkDateTime 0 "UTC" french true.
Definition invalidDate : Luxon.DateTime := Luxon.mkDateTime 0 "UTC" english false.
Definition ninetyMinutes : Luxon.Duration :=
  Luxon.mkDuration 0 0 0 0 0 1 30 0 0 english true.
Definition oneHour : Luxon.Duration := Luxon.mkDuration 0 0 0 0 0 1 0 0 0 english true.
Definition sixtyMinutes : Luxon.Duration := Luxon.mkDuration 0 0 0 0 0 0 60 0 0 english true.
Definition invalidDuration : Luxon.Duration :=
  Luxon.mkDuration 0 0 0 0 0 1 0 0 0 english false.

(** A text that ends in two blank lines. *)
Definition blankEndedText : string :=
  "buy milk" +:+ String JS.LF (String JS.LF "").

(** A stand-in for [setInlineField] on a text that holds no field. *)
Definition noField (text key : string) (value : option string) : string := text.

End Sample.

(** ** Notions the properties are stated with *)

(** The lengths of the arrays, and the numbers of properties of the objects,
    that a value is or holds at any depth. *)
Fixpoint containerLengths (v : Values.Literal) : list nat :=
  match v with
  | Values.LArray l => length l :: flat_map containerLengths l
  | Values.LObject o => length o :: flat_map (fun kv => containerLengths (snd kv)) o
  | _ => []
  end.

(** The results a comparison is said to have. *)
Definition isSign (z : Z) : Prop := z = -1 \/ z = 0 \/ z = 1.

(** A result that is the difference of two lengths held by the values
    compared. *)
Definition isLengthDifference (a b : Values.Literal) (z : Z) : Prop :=
  exists n1 n2 : nat,
    In n1 (containerLengths a) /\ In n2 (containerLengths b)
    /\ z = Z.of_nat n1 - Z.of_nat n2.

(** What [compareValue(a, b)] can return. *)
Definition inRange (a b : Values.Literal) (z : Z) : Prop :=
  isSign z \/ isLengthDifference a b z.

Module RewriteSpec.
Import TaskView.

(** The writes among the reads and writes a vault has seen. *)
Definition writes (vault : Vault.Vault) : list Vault.IOEvent :=
  List.filter Vault.isWrite (Vault.io vault).

(** The no-op precondition: the desired status is the node's, and no text
    is asked for or the text asked for is the node's. *)
Definition nothingToDo (task : SListItem) (desiredStatus : string)
  (desiredText : option string) : Prop :=
  desiredStatus = status task /\ (desiredText = None \/ desiredText = Some (text task)).

(** The first line of the node's text, trimmed. *)
Definition cachedFirstLine (task : SListItem) : string :=
  JS.trim (nth 0 (JS.splitLF (text task)) "").

Section Guards.
Variable exec : string -> option RegExpMatch.

(** The staleness guards of [rewriteTask] on the document [raw]: the line
    number of the node exceeds the number of lines; the addressed line does
    not match the grammar; the capture the guard tests (group 2) is empty;
    the trimmed first line of the node's text is not the trimmed body
    captured (group 3). *)
Inductive guardFails (task : SListItem) (raw : string) : Prop :=
| lineBeyondDocument :
    (length (JS.splitLines raw) < line task)%nat -> guardFails task raw
| noListItem :
    exec (lineAt (JS.splitLines raw) (line task)) = None -> guardFails task raw
| emptyCapture (m : RegExpMatch) :
    exec (lineAt (JS.splitLines raw) (line task)) = Some m ->
    group2 m = Some "" -> guardFails task raw
| staleText (m : RegExpMatch) (body : string) :
    exec (lineAt (JS.splitLines raw) (line task)) = Some m ->
    group3 m = Some body ->
    cachedFirstLine task <> JS.trim body -> guardFails task raw.

(** All guards pass. *)
Definition guardsPass (task : SListItem) (raw : string) : Prop :=
  (line task <= length (JS.splitLines raw))%nat
  /\ exists m box body,
       exec (lineAt (JS.splitLines raw) (line task)) = Some m
       /\ group2 m = Some box /\ box <> ""
       /\ group3 m = Some body /\ cachedFirstLine task = JS.trim body.

End Guards.

(** How a call that has awaited its write ends. *)
Definition written (w : Vault.Vault * bool) : Vault.Vault * Outcome :=
  match w with
  | (vault, true) => (vault, Resolved)
  | (vault, false) => (vault, Rejected (IOError "write rejected"))
  end.

(** The status written: the empty string stands for a space. *)
Definition normalStatus (desiredStatus : string) : string :=
  if String.eqb desiredStatus "" then " " else desiredStatus.

(** The line ending of a document: CRLF if it holds a carriage return. *)
Definition lineEnding (raw : string) : string :=
  if JS.containsChar JS.CR raw then String JS.CR (String JS.LF "") else String JS.LF "".

(** The lines that stand for the replacement text: line 0 behind
    [<indent><marker> [<status>] ], every other line behind [<indent><tab>]. *)
Definition replacementLines (indent marker status replacement : string) : list string :=
  match JS.splitLF replacement with
  | first :: others =>
      (indent +:+ marker +:+ " [" +:+ status +:+ "] " +:+ first)
      :: map (fun l => indent +:+ String JS.TAB "" +:+ l) others
  | [] => []
  end.

(** The document after the splice: the lines before the addressed one, the
    replacement lines, and the lines behind the [lineCount] lines of the
    node, joined with the line ending of the document. *)
Definition splicedDocument (raw : string) (task : SListItem)
  (desiredStatus replacement : string) : string :=
  let lines := JS.splitLines raw in
  let indent := JS.leadingSpace (lineAt lines (line task)) in
  JS.join (lineEnding raw)
    (take (line task) lines
     ++ replacementLines indent (symbol task) (normalStatus desiredStatus) replacement
     ++ drop (line task + lineCount task) lines)%list.

End RewriteSpec.

(** ** Notions the laws of the comparator are stated with *)
Module Order.
Import Values.

(** The laws of the order a comparison function defines on the values that
    satisfy [Q]: it is zero on a value and itself, negative one way exactly
    when it is positive the other way, and transitive. *)
Record orderLaws {A : Type} (Q : A -> Prop) (cmp : A -> A -> Z) : Prop := {
  laws_refl : forall x, Q x -> cmp x x = 0;
  laws_antisym : forall x y, Q x -> Q y -> (cmp x y < 0 <-> cmp y x > 0);
  laws_trans :
    forall x y z, Q x -> Q y -> Q z -> cmp x y <= 0 -> cmp y z <= 0 -> cmp x z <= 0;
}.

(** What is asked of the host's [localeCompare]: the laws of an order, and
    zero on equal strings only. *)
Record localeOrder (lc : string -> string -> Z) : Prop := {
  locale_laws : orderLaws (fun _ => True) lc;
  locale_eq : forall x y, lc x y = 0 -> x = y;
}.

(** A valid duration whose units are carried over: each unit is below what
    makes one of the next unit above it that it fits in.  Two such
    durations of one length are equal unit by unit. *)
Definition canonicalDuration (d : Luxon.Duration) : Prop :=
  Luxon.Duration_isValid d = true
  /\ 0 <= Luxon.milliseconds d < 1000 /\ 0 <= Luxon.seconds d < 60
  /\ 0 <= Luxon.minutes d < 60 /\ 0 <= Luxon.hours d < 24
  /\ 0 <= Luxon.days d < 7
  /\ 0 <= Luxon.weeks d /\ Luxon.weeks d * 7 + Luxon.days d < 30
  /\ 0 <= Luxon.months d
  /\ Luxon.months d * 30 + Luxon.weeks d * 7 + Luxon.days d < 91
  /\ 0 <= Luxon.quarters d
  /\ Luxon.quarters d * 91 + Luxon.months d * 30 + Luxon.weeks d * 7 + Luxon.days d < 365.

(** A date, and a duration, as one setting of the library makes them and
    [<] and [equals] order them: a valid date in the zone and the locale
    of the setting; a canonical duration in its locale. *)
Definition orderableDate (settings : Luxon.Settings) (d : Luxon.DateTime) : Prop :=
  Luxon.DateTime_isValid d = true
  /\ Luxon.zone d = Luxon.defaultZone settings
  /\ Luxon.DateTime_loc d = Luxon.defaultLocale settings.
Definition orderableDuration (settings : Luxon.Settings) (d : Luxon.Duration) : Prop :=
  Luxon.Duration_loc d = Luxon.defaultLocale settings /\ canonicalDuration d.

(** The values on which [<] and equality agree at every leaf: no number is
    [NaN], every date is valid and has the zone and the locale of
    [settings], every duration is canonical and has that locale.  Outside
    of them [compareValue] returns 1 both ways on two leaves that are
    neither less than nor equal to each other. *)
Fixpoint orderable (settings : Luxon.Settings) (v : Literal) : Prop :=
  match v with
  | LNumber n => PrimFloat.eqb n n = true
  | LDate d => orderableDate settings d
  | LDuration d => orderableDuration settings d
  | LArray l => fold_right (fun x rest => orderable settings x /\ rest) True l
  | LObject o => fold_right (fun kv rest => orderable settings (snd kv) /\ rest) True o
  | _ => True
  end.

(** [orderable] values of nesting at most [k]. *)
Definition within (settings : Luxon.Settings) (k : nat) (v : Literal) : Prop :=
  orderable settings v /\ (depth v <= k)%nat.

(** What [compareValue] looks at first: [null] (or [undefined]), no tag, or
    the tag. *)
Inductive Class := CNull | CUntagged | CTagged (t : LiteralType).

Definition classOf (v : Literal) : Class :=
  match v with
  | LNull | LUndefined => CNull
  | _ => match wrapValue v with
         | Some w => CTagged (type w)
         | None => CUntagged
         end
  end.

(** How [compareValue] orders two values of different classes. *)
Definition compareClasses (lc : string -> string -> Z) (c1 c2 : Class) : Z :=
  match c1, c2 with
  | CNull, CNull => 0
  | CNull, _ => 1
  | _, CNull => -1
  | CUntagged, CUntagged => 0
  | CUntagged, _ => 1
  | _, CUntagged => -1
  | CTagged t1, CTagged t2 => lc (typeName t1) (typeName t2)
  end.

(** [if (c1 != 0) return c1; return c2]: the first comparison decides
    unless it is zero. *)
Definition lex (c1 c2 : Z) : Z := if negb (c1 =? 0) then c1 else c2.

(** Two results that are each other's opposite in sign. *)
Definition opposite (xy yx : Z) : Prop := (xy < 0 <-> yx > 0) /\ (xy > 0 <-> yx < 0).

(** The results on [x, y], on [y, z] and on [x, z] of a transitive
    comparison. *)
Definition chained (xy yz xz : Z) : Prop :=
  (xy <= 0 -> yz <= 0 -> xz <= 0)
  /\ (xy <= 0 -> yz <= 0 -> xz = 0 -> xy = 0 /\ yz = 0)
  /\ (xy = 0 -> yz = 0 -> xz = 0).

(** The place of a float that is not [NaN] in the order of [<]: its sign
    class, then exponent and mantissa. *)
Definition floatKey (f : spec_float) : Z * Z * Z :=
  match f with
  | S754_zero _ => (0, 0, 0)
  | S754_infinity s => (if s then -2 else 2, 0, 0)
  | S754_nan => (0, 0, 0)
  | S754_finite s m e => if s then (-1, - e, - Zpos m) else (1, e, Zpos m)
  end.

Definition compareKeys (a b : Z * Z * Z) : comparison :=
  match a, b with
  | (a1, a2, a3), (b1, b2, b3) =>
      match a1 ?= b1 with
      | Eq => match a2 ?= b2 with
              | Eq => a3 ?= b3
              | c => c
              end
      | c => c
      end
  end.

(** The cases of [compareValue] on two numbers, booleans, dates, durations,
    and the last two steps of its link case. *)
Definition numberOrder (x y : float) : Z :=
  if PrimFloat.ltb x y then -1 else if PrimFloat.eqb x y then 0 else 1.
Definition booleanOrder (a b : bool) : Z :=
  if Bool.eqb a b then 0 else if a then 1 else -1.
Definition dateOrder (a b : Luxon.DateTime) : Z :=
  if Luxon.lessThan (Luxon.DateTime_valueOf a) (Luxon.DateTime_valueOf b) then -1
  else if Luxon.DateTime_equals a b then 0 else 1.
Definition durationOrder (a b : Luxon.Duration) : Z :=
  if Luxon.lessThan (Luxon.Duration_valueOf a) (Luxon.Duration_valueOf b) then -1
  else if Luxon.Duration_equals a b then 0 else 1.
Definition subpathOrder (lc : string -> string -> Z) (s1 s2 : option string) : Z :=
  if truthy s1 && negb (truthy s2) then 1
  else if negb (truthy s1) && truthy s2 then -1
  else if negb (truthy s1) && negb (truthy s2) then 0
  else lc (default "" s1) (default "" s2).

End Order.

(** ** Notions the further properties are stated with *)
Module Shape.
Import Values.

(** Every object a value is or holds has distinct keys, as an object of the
    host has. *)
Fixpoint uniqueKeys (v : Literal) : Prop :=
  match v with
  | LArray l => fold_right (fun x rest => uniqueKeys x /\ rest) True l
  | LObject o =>
      NoDup (keys o) /\ fold_right (fun kv rest => uniqueKeys (snd kv) /\ rest) True o
  | _ => True
  end.

(** No object the value is or holds has an own property of the name
    ["__proto__"]. *)
Fixpoint noProtoKey (v : Literal) : Prop :=
  match v with
  | LArray l => fold_right (fun x rest => noProtoKey x /\ rest) True l
  | LObject o =>
      fold_right (fun kv rest => (fst kv <> "__proto__" /\ noProtoKey (snd kv)) /\ rest)
        True o
  | _ => True
  end.

(** A [null] is the value or is held by it, behind arrays and plain
    objects only. *)
Fixpoint holdsNull (v : Literal) : bool :=
  match v with
  | LNull => true
  | LArray l => existsb holdsNull l
  | LObject o => existsb (fun kv => holdsNull (snd kv)) o
  | _ => false
  end.

(** The value with [func] applied at its leaves: the values that are
    neither arrays nor plain objects. *)
Fixpoint leafMap (func : Literal -> Literal) (v : Literal) : Literal :=
  match v with
  | LArray l => LArray (map (leafMap func) l)
  | LObject o => LObject (map (fun kv => (fst kv, leafMap func (snd kv))) o)
  | _ => func v
  end.

(** A function that returns leaves other than [null]. *)
Definition toLeaves (func : Literal -> Literal) : Prop :=
  forall x, isArray (func x) = false /\ isObject (func x) = false.

(** The items below an item, at any depth. *)
Fixpoint descendants (item : TaskView.SListItem) : list TaskView.SListItem :=
  flat_map (fun child => child :: descendants child) (TaskView.children item).

(** The identities of a list of items, and of all that is below them. *)
Definition identities (items : list TaskView.SListItem) : gset string :=
  list_to_set (map TaskView.listId items).
Definition covered (raw : list TaskView.SListItem) : gset string :=
  identities (flat_map descendants raw).

(** The document after a rewrite of the status alone: the addressed line
    is replaced by [<indent><marker> [<status>] <first line of the node>],
    every other line stays, and the lines are joined with the line ending
    of the document. *)
Definition restatedDocument (raw : string) (task : TaskView.SListItem)
  (desiredStatus : string) : string :=
  let lines := JS.splitLines raw in
  JS.join (RewriteSpec.lineEnding raw)
    (<[ TaskView.line task :=
          TaskView.taskLine (JS.leadingSpace (TaskView.lineAt lines (TaskView.line task)))
            (TaskView.symbol task) (RewriteSpec.normalStatus desiredStatus)
            (RewriteSpec.cachedFirstLine task) ]> lines).

End Shape.

(** * Properties *)

(** ** Link equality *)

Lemma Link_typeEq_eq (a b : Link.LinkType) : Link.typeEq a b = true <-> a = b.
Proof.
  split.
  - destruct a, b; simpl; intros H; try reflexivity; discriminate H.
  - intros ->. destruct b; reflexivity.
Qed.

Lemma Link_looseEqOpt_eq (a b : option string) : Link.looseEqOpt a b = true <-> a = b.
Proof.
  destruct a as [x|], b as [y|]; simpl; split; intros H;
    try reflexivity; try discriminate H.
  - apply String.eqb_eq in H. congruence.
  - injection H as ->. apply String.eqb_refl.
Qed.

(** C9: two links are equal exactly when their paths, types and subpaths
    are; [display] and [embed] play no part, and
    [Link.file("a.md", true, "X").equals(Link.file("a.md", false, "Y"))]
    is [true]. *)
Theorem Link_equals_path_type_subpath :
  (forall a b : Link.Link,
     Link.equals a (Some b) = true
     <-> Link.path a = Link.path b
         /\ Link.type a = Link.type b
         /\ Link.subpath a = Link.subpath b)
  /\ Link.equals (Link.file "a.md" (Some true) (Some "X"))
       (Some (Link.file "a.md" (Some false) (Some "Y"))) = true.
Proof.
  split; [|reflexivity].
  intros a b. unfold Link.equals.
  rewrite !andb_true_iff, String.eqb_eq, Link_typeEq_eq, Link_looseEqOpt_eq.
  tauto.
Qed.

(** ** The comparator *)

Section CompareFacts.
Import Values.
Variable localeCompare : string -> string -> Z.

Lemma depth_succ (v : Literal) : exists n, depth v = S n.
Proof. destruct v; simpl; eauto. Qed.

(** [compareValue] is its body applied to the value at hand. *)
Lemma compareValue_unfold (val1 val2 : Literal) (n : option (string -> string)) :
  exists fuel,
    depth val1 = S fuel
    /\ compareValue localeCompare val1 val2 n
       = compareValue_body localeCompare
           (fun a b => compareValue_fuel localeCompare fuel a b None) val1 val2 n.
Proof.
  destruct (depth_succ val1) as [fuel Hd]. exists fuel. split; [exact Hd|].
  unfold compareValue. rewrite Hd. reflexivity.
Qed.

Lemma compareValue_null_r (a : Literal) (n : option (string -> string)) :
  isNull a = false -> compareValue localeCompare a LNull n = -1.
Proof.
  intros Ha. destruct (compareValue_unfold a LNull n) as (fuel & _ & ->).
  destruct a; try discriminate Ha; reflexivity.
Qed.

Lemma compareValue_null_l (a : Literal) (n : option (string -> string)) :
  isNull a = false -> compareValue localeCompare LNull a n = 1.
Proof. intros Ha. destruct a; try discriminate Ha; reflexivity. Qed.

Lemma compareValue_undefined_r (a : Literal) (n : option (string -> string)) :
  compareValue localeCompare a LUndefined n = compareValue localeCompare a LNull n.
Proof.
  destruct (compareValue_unfold a LUndefined n) as (fuel & Hd & ->).
  destruct (compareValue_unfold a LNull n) as (fuel' & Hd' & ->).
  assert (fuel' = fuel) as -> by congruence. reflexivity.
Qed.

End CompareFacts.

(** C5: [null] is the greatest value: against every value that is neither
    [null] nor [undefined] (with a tag or without), [compareValue(a, null)]
    is negative and [compareValue(null, a)] positive; [null] equals itself;
    and [undefined] compares as [null] does, on either side. *)
Theorem compareValue_null_is_maximum
  (localeCompare : string -> string -> Z) (n : option (string -> string))
  (a : Values.Literal) (Ha : Values.isNull a = false) :
  Values.compareValue localeCompare a Values.LNull n < 0
  /\ Values.compareValue localeCompare Values.LNull a n > 0
  /\ Values.compareValue localeCompare Values.LNull Values.LNull n = 0
  /\ (forall b, Values.compareValue localeCompare Values.LUndefined b n
                = Values.compareValue localeCompare Values.LNull b n)
  /\ (forall b, Values.compareValue localeCompare b Values.LUndefined n
                = Values.compareValue localeCompare b Values.LNull n).
Proof.
  rewrite (compareValue_null_r localeCompare a n Ha).
  rewrite (compareValue_null_l localeCompare a n Ha).
  repeat split; try lia.
  intros b. apply compareValue_undefined_r.
Qed.

Lemma compareValue_null_is_maximum_witness :
  Values.isNull (Values.LString "a") = false
  /\ Values.compareValue JS.codeUnitCompare (Values.LString "a") Values.LNull None < 0
  /\ Values.compareValue JS.codeUnitCompare Values.LNull (Values.LString "a") None > 0.
Proof.
  split; [reflexivity|].
  pose proof (compareValue_null_is_maximum JS.codeUnitCompare None
                (Values.LString "a") eq_refl) as H.
  split; [exact (proj1 H) | exact (proj1 (proj2 H))].
Defined.

(** C1: the number case of [compareValue] returns 1 whenever [<] and [==]
    both fail, which is what they do on [NaN]: [NaN] does not compare equal
    to itself, and it is greater than 1 while 1 is greater than it. *)
Theorem compareValue_NaN_not_ordered (localeCompare : string -> string -> Z) :
  Values.compareValue localeCompare (Values.LNumber nan) (Values.LNumber nan) None = 1
  /\ Values.compareValue localeCompare (Values.LNumber nan) (Values.LNumber 1%float) None = 1
  /\ Values.compareValue localeCompare (Values.LNumber 1%float) (Values.LNumber nan) None = 1.
Proof. repeat split; vm_compute; reflexivity. Qed.

(** ** Grouping detection *)

Lemma isObject_inv (v : Values.Literal) :
  Values.isObject v = true -> v = Values.LNull \/ exists o, v = Values.LObject o.
Proof.
  destruct v; simpl; intros H; try discriminate H; [left | right]; eauto.
Qed.

Lemma isElementGroup_throw_iff (v : Values.Literal) :
  (exists e, Groupings.isElementGroup v = Throw e) <-> v = Values.LNull.
Proof.
  split.
  - intros [e He]. unfold Groupings.isElementGroup in He.
    destruct (Values.isObject v) eqn:Hobj; [|discriminate He].
    destruct (isObject_inv v Hobj) as [-> | [o ->]]; [reflexivity|].
    simpl in He. destruct (length (Values.keys o) =? 2)%nat; [|discriminate He].
    simpl in He. destruct (existsb _ _); discriminate He.
  - intros ->. eexists. reflexivity.
Qed.

Lemma isElementGroup_cases (v : Values.Literal) :
  v = Values.LNull \/ exists b, Groupings.isElementGroup v = Return b.
Proof.
  destruct (Groupings.isElementGroup v) as [b|e] eqn:H.
  - right. eauto.
  - left. apply isElementGroup_throw_iff. eauto.
Qed.

Lemma isGrouping_null_after_groups (pre post : list Values.Literal) :
  Forall (fun x => Groupings.isElementGroup x = Return true) pre ->
  exists e, Groupings.isGrouping (pre ++ Values.LNull :: post) = Throw e.
Proof.
  induction 1 as [|x pre Hx _ IH]; simpl.
  - eexists. reflexivity.
  - rewrite Hx. simpl. exact IH.
Qed.

(** C10: [isObject(null)] is [true] and [isElementGroup(null)] throws; it
    throws on no other value.  [isGrouping(seq)] throws exactly when [seq]
    holds a [null] before which every element is an element group: the
    loop returns [false] at the first element that is not one, so a [null]
    behind such an element is never looked at. *)
Theorem isGrouping_throws_on_leading_null :
  Values.isObject Values.LNull = true
  /\ (exists e, Groupings.isElementGroup Values.LNull = Throw e)
  /\ forall seq : list Values.Literal,
       (exists e, Groupings.isGrouping seq = Throw e)
       <-> exists pre post,
             seq = (pre ++ Values.LNull :: post)%list
             /\ Forall (fun x => Groupings.isElementGroup x = Return true) pre.
Proof.
  split; [reflexivity|]. split; [eexists; reflexivity|].
  intros seq. split.
  - induction seq as [|x seq IH]; intros [e He]; simpl in He; [discriminate He|].
    destruct (isElementGroup_cases x) as [-> | [b Hb]].
    + exists [], seq. split; [reflexivity | constructor].
    + rewrite Hb in He. simpl in He. destruct b; simpl in He; [|discriminate He].
      destruct IH as (pre & post & -> & Hpre); [eauto|].
      exists (x :: pre), post. split; [reflexivity|]. constructor; assumption.
  - intros (pre & post & -> & Hpre). apply isGrouping_null_after_groups, Hpre.
Qed.

(** A sequence that holds [null] and on which [isGrouping] returns [false]. *)
Lemma isGrouping_null_behind_non_group :
  In Values.LNull [Values.LNumber 1%float; Values.LNull]
  /\ Groupings.isGrouping [Values.LNumber 1%float; Values.LNull] = Return false.
Proof. split; [right; left; reflexivity | reflexivity]. Qed.

(** ** Task de-duplication *)

Section NestItems.
Import TaskView.

Lemma SListItem_nested_ind (P : SListItem -> Prop) :
  (forall p l lc t s st cs, Forall P cs -> P (mkSListItem p l lc t s st cs)) ->
  forall item, P item.
Proof.
  intros step. fix IH 1. intros [p l lc t s st cs]. apply step.
  revert cs. fix IHcs 1. intros [|c cs]; constructor; [apply IH | apply IHcs].
Qed.

(** What [listChildren] adds to [output] does not depend on [output]. *)
Lemma listChildren_into_union (item : SListItem) :
  forall output, listChildren_into item output = output ∪ listChildren_into item ∅.
Proof.
  induction item as [p l lc t s st cs IHcs] using SListItem_nested_ind. simpl.
  induction IHcs as [|c cs Hc _ IH]; intros output; simpl.
  - set_solver.
  - rewrite IH. rewrite (IH (listChildren_into c _)).
    rewrite (Hc (output ∪ _)), (Hc (∅ ∪ _)). set_solver.
Qed.

Lemma listChildren_children_union (cs : list SListItem) :
  forall output,
    fold_left (fun output child => listChildren_into child (output ∪ {[ listId child ]}))
      cs output
    = output
      ∪ fold_left (fun output child => listChildren_into child (output ∪ {[ listId child ]}))
          cs ∅.
Proof.
  induction cs as [|c cs IH]; intros output; simpl.
  - set_solver.
  - rewrite IH. rewrite (IH (listChildren_into c _)).
    rewrite (listChildren_into_union c (output ∪ _)).
    rewrite (listChildren_into_union c (∅ ∪ _)). set_solver.
Qed.

Lemma listChildren_child (item child : SListItem) :
  In child (children item) -> listId child ∈ listChildren item None.
Proof.
  unfold listChildren. simpl. generalize (∅ : gset string).
  destruct item as [p l lc t s st cs]. simpl.
  induction cs as [|c cs IH]; intros output Hin; [destruct Hin|].
  destruct Hin as [-> | Hin]; simpl.
  - rewrite listChildren_children_union, listChildren_into_union. set_solver.
  - apply IH, Hin.
Qed.

Lemma nestItems_loop_mask (raw : list SListItem) :
  forall seen mask,
    snd (nestItems_loop raw seen mask) = mask ∪ list_to_set (map listId raw).
Proof.
  induction raw as [|item raw IH]; intros seen mask; simpl.
  - set_solver.
  - rewrite IH. set_solver.
Qed.

(** The second component of [nestItems(raw)] holds the identity of every
    item of [raw]. *)
Lemma nestItems_mask (raw : list SListItem) :
  snd (nestItems raw) = list_to_set (map listId raw).
Proof.
  unfold nestItems. pose proof (nestItems_loop_mask raw ∅ ∅) as H.
  destruct (nestItems_loop raw ∅ ∅) as [seen mask]. simpl in *. set_solver.
Qed.

Lemma nestItems_pair (R1 C1 : SListItem) :
  nestItems [R1; C1]
  = (filter (fun t => listId t ∉ listChildren R1 None ∪ listChildren C1 None) [R1; C1],
     {[ listId R1; listId C1 ]}).
Proof.
  assert (listChildren C1 (Some (listChildren R1 (Some ∅)))
          = listChildren R1 None ∪ listChildren C1 None) as Hseen.
  { unfold listChildren. simpl.
    rewrite (listChildren_into_union C1), (listChildren_into_union R1). set_solver. }
  unfold nestItems. simpl. rewrite Hseen. f_equal. set_solver.
Qed.

End NestItems.

(** C2 (as the code has it): for a root [R1] and an item [C1] whose
    identity is that of a descendant of [R1], identities being unique (that
    of [R1] is no descendant's of either), [nestItems([R1, C1])] returns
    [filtered = [R1]], and the returned set holds the identity of every
    item given: that of [R1] and that of [C1]. *)
Theorem nestItems_root_and_child (R1 C1 : TaskView.SListItem)
  (Hchild : TaskView.listId C1 ∈ TaskView.listChildren R1 None)
  (Hroot : TaskView.listId R1 ∉ TaskView.listChildren R1 None)
  (Hroot' : TaskView.listId R1 ∉ TaskView.listChildren C1 None) :
  fst (TaskView.nestItems [R1; C1]) = [R1]
  /\ snd (TaskView.nestItems [R1; C1]) = {[ TaskView.listId R1; TaskView.listId C1 ]}
  /\ TaskView.listId R1 ∈ snd (TaskView.nestItems [R1; C1])
  /\ TaskView.listId C1 ∈ snd (TaskView.nestItems [R1; C1]).
Proof.
  rewrite nestItems_pair. simpl. repeat split; try set_solver.
  rewrite filter_cons_True by set_solver.
  rewrite filter_cons_False by set_solver.
  reflexivity.
Qed.

Lemma nestItems_root_and_child_witness :
  TaskView.listId Sample.C1 ∈ TaskView.listChildren Sample.R1 None
  /\ (TaskView.listId Sample.R1 ∉ TaskView.listChildren Sample.R1 None)
  /\ (TaskView.listId Sample.R1 ∉ TaskView.listChildren Sample.C1 None)
  /\ fst (TaskView.nestItems [Sample.R1; Sample.C1]) = [Sample.R1]
  /\ TaskView.listId Sample.C1 ∈ snd (TaskView.nestItems [Sample.R1; Sample.C1]).
Proof.
  assert (TaskView.listChildren Sample.R1 None = {[ "a.md:1" ]}) as HR
    by (vm_compute; reflexivity).
  assert (TaskView.listChildren Sample.C1 None = ∅) as HC by reflexivity.
  assert (TaskView.listId Sample.R1 = "a.md:0") as HidR by reflexivity.
  assert (TaskView.listId Sample.C1 = "a.md:1") as HidC by reflexivity.
  assert (TaskView.listId Sample.C1 ∈ TaskView.listChildren Sample.R1 None) as H1
    by (rewrite HR, HidC; set_solver).
  assert (TaskView.listId Sample.R1 ∉ TaskView.listChildren Sample.R1 None) as H2
    by (rewrite HR, HidR; set_solver).
  assert (TaskView.listId Sample.R1 ∉ TaskView.listChildren Sample.C1 None) as H3
    by (rewrite HC; set_solver).
  destruct (nestItems_root_and_child Sample.R1 Sample.C1 H1 H2 H3) as (F & _ & _ & M).
  repeat split; assumption.
Defined.

(** [C1] is a child of [R1], and the set [nestItems([R1, C1])] returns
    holds the identity of [C1]. *)
Lemma nestItems_mask_holds_child :
  In Sample.C1 (TaskView.children Sample.R1)
  /\ fst (TaskView.nestItems [Sample.R1; Sample.C1]) = [Sample.R1]
  /\ ~ (TaskView.listId Sample.R1 ∈ snd (TaskView.nestItems [Sample.R1; Sample.C1])
        /\ TaskView.listId Sample.C1 ∉ snd (TaskView.nestItems [Sample.R1; Sample.C1])).
Proof.
  split; [left; reflexivity|]. split.
  - vm_compute. reflexivity.
  - rewrite nestItems_mask. simpl. set_solver.
Qed.

(** ** Task manipulation *)

Section RewriteFacts.
Import TaskView RewriteSpec.
Variable exec : string -> option RegExpMatch.

Lemma writes_read (vault : Vault.Vault) (path : string) :
  writes (fst (Vault.read vault path)) = writes vault.
Proof.
  unfold writes, Vault.read. simpl. rewrite List.filter_app. simpl.
  apply app_nil_r.
Qed.

Lemma nothingToDo_test (task : SListItem) (desiredStatus : string)
  (desiredText : option string) :
  String.eqb desiredStatus (status task)
  && match desiredText with
     | None => true
     | Some t => String.eqb t (text task)
     end = true
  <-> nothingToDo task desiredStatus desiredText.
Proof.
  unfold nothingToDo. rewrite andb_true_iff, String.eqb_eq.
  destruct desiredText as [t|].
  - rewrite String.eqb_eq. split.
    + intros [-> ->]. auto.
    + intros [-> [H | H]]; [discriminate H | injection H as ->]. auto.
  - split; intros [-> _]; auto.
Qed.

(** When a guard fails the vault is the one the read left: the documents
    are untouched and no write is recorded. *)
Lemma rewriteTask_guard (vault : Vault.Vault) (task : SListItem)
  (desiredStatus : string) (desiredText : option string) (raw : string) :
  Vault.files vault !! path task = Some raw ->
  guardFails exec task raw ->
  fst (rewriteTask exec vault task desiredStatus desiredText) = vault
  \/ fst (rewriteTask exec vault task desiredStatus desiredText)
     = fst (Vault.read vault (path task)).
Proof.
  intros Hfile Hguard. unfold rewriteTask.
  destruct (_ && _); [left; reflexivity|]. right.
  unfold Vault.read at 1. rewrite Hfile.
  destruct Hguard as [Hlen | Hno | m Hm H2 | m body Hm H3 Hstale].
  - apply Nat.ltb_lt in Hlen. rewrite Hlen. reflexivity.
  - destruct (_ <? _)%nat; [reflexivity|]. rewrite Hno. reflexivity.
  - destruct (_ <? _)%nat; [reflexivity|]. rewrite Hm, H2. reflexivity.
  - destruct (_ <? _)%nat; [reflexivity|]. rewrite Hm.
    destruct (group2 m) as [g2|]; [|reflexivity].
    destruct (String.length g2 =? 0)%nat; [reflexivity|].
    rewrite H3. fold (cachedFirstLine task).
    destruct (String.eqb_spec (cachedFirstLine task) (JS.trim body)) as [E|_];
      [contradiction | reflexivity].
Qed.

End RewriteFacts.

(** C8: when the desired status is the node's and no replacement text is
    asked for, or the text asked for is the node's, [rewriteTask] resolves
    with the vault as it was: its documents are unchanged and it has seen
    no read and no write. *)
Theorem rewriteTask_no_op_zero_io
  (exec : string -> option TaskView.RegExpMatch) (vault : Vault.Vault)
  (task : TaskView.SListItem) (desiredStatus : string) (desiredText : option string)
  (Hnoop : RewriteSpec.nothingToDo task desiredStatus desiredText) :
  TaskView.rewriteTask exec vault task desiredStatus desiredText = (vault, TaskView.Resolved)
  /\ Vault.io (fst (TaskView.rewriteTask exec vault task desiredStatus desiredText))
     = Vault.io vault
  /\ Vault.files (fst (TaskView.rewriteTask exec vault task desiredStatus desiredText))
     = Vault.files vault.
Proof.
  apply nothingToDo_test in Hnoop. unfold TaskView.rewriteTask.
  rewrite Hnoop. repeat split.
Qed.

Lemma rewriteTask_no_op_zero_io_witness :
  RewriteSpec.nothingToDo Sample.milkTask " " None
  /\ TaskView.rewriteTask TaskView.listItemGrammar_exec Sample.milkVault Sample.milkTask
       " " None
     = (Sample.milkVault, TaskView.Resolved).
Proof.
  assert (RewriteSpec.nothingToDo Sample.milkTask " " None) as H
    by (split; [reflexivity | left; reflexivity]).
  split; [exact H|].
  exact (proj1 (rewriteTask_no_op_zero_io TaskView.listItemGrammar_exec
                  Sample.milkVault Sample.milkTask " " None H)).
Defined.

(** C6 (as the code has it): when the document is read and a staleness
    guard fails (the line number of the node exceeds the number of lines of
    the document, the addressed line does not match the list-item grammar
    or the capture the guard tests, group 2, is empty, or the trimmed first
    line of the node's text is not the trimmed body captured, group 3),
    [rewriteTask] writes nothing: the documents of the vault are unchanged
    and no write is recorded. *)
Theorem rewriteTask_stale_zero_writes
  (exec : string -> option TaskView.RegExpMatch) (vault : Vault.Vault)
  (task : TaskView.SListItem) (desiredStatus : string) (desiredText : option string)
  (raw : string)
  (Hfile : Vault.files vault !! TaskView.path task = Some raw)
  (Hguard : RewriteSpec.guardFails exec task raw) :
  Vault.files (fst (TaskView.rewriteTask exec vault task desiredStatus desiredText))
  = Vault.files vault
  /\ RewriteSpec.writes (fst (TaskView.rewriteTask exec vault task desiredStatus desiredText))
     = RewriteSpec.writes vault.
Proof.
  destruct (rewriteTask_guard exec vault task desiredStatus desiredText raw Hfile Hguard)
    as [-> | ->].
  - split; reflexivity.
  - split; [reflexivity | apply writes_read].
Qed.

Lemma rewriteTask_stale_zero_writes_witness :
  Vault.files Sample.milkVault !! TaskView.path Sample.staleTask = Some Sample.milkDocument
  /\ RewriteSpec.guardFails TaskView.listItemGrammar_exec Sample.staleTask Sample.milkDocument
  /\ Vault.files (fst (TaskView.rewriteTask TaskView.listItemGrammar_exec Sample.milkVault
                         Sample.staleTask "X" None))
     = Vault.files Sample.milkVault.
Proof.
  assert (Vault.files Sample.milkVault !! TaskView.path Sample.staleTask
          = Some Sample.milkDocument) as Hfile by (vm_compute; reflexivity).
  assert (RewriteSpec.guardFails TaskView.listItemGrammar_exec Sample.staleTask
            Sample.milkDocument) as Hguard.
  { eapply RewriteSpec.staleText with (body := "buy milk").
    - vm_compute. reflexivity.
    - reflexivity.
    - vm_compute. discriminate. }
  split; [exact Hfile|]. split; [exact Hguard|].
  exact (proj1 (rewriteTask_stale_zero_writes TaskView.listItemGrammar_exec
                  Sample.milkVault Sample.staleTask "X" None Sample.milkDocument
                  Hfile Hguard)).
Defined.

Lemma splitLF_from_cons (cur s : string) :
  exists first others, JS.splitLF_from cur s = first :: others.
Proof.
  revert cur. induction s as [|c s IH]; intros cur; simpl.
  - eauto.
  - destruct (Ascii.eqb c JS.LF); eauto.
Qed.

Lemma rewriteTask_newTextLines (indent marker st replacement : string) :
  ([TaskView.taskLine indent marker st (nth 0 (JS.splitLF replacement) "")]
   ++ map (fun l => indent +:+ String JS.TAB "" +:+ l) (tail (JS.splitLF replacement)))%list
  = RewriteSpec.replacementLines indent marker st replacement.
Proof.
  unfold RewriteSpec.replacementLines, JS.splitLF.
  destruct (splitLF_from_cons "" replacement) as (first & others & ->).
  reflexivity.
Qed.

(** Where the document has [deleteCount] lines from [start] on, the splice
    takes exactly that many lines out. *)
Lemma splice_length (filetext : list string) (start deleteCount : nat)
  (items : list string) :
  (start + deleteCount <= length filetext)%nat ->
  (length (TaskView.splice filetext start deleteCount items) + deleteCount
   = length filetext + length items)%nat.
Proof.
  intros H. unfold TaskView.splice.
  rewrite !length_app, length_take, length_drop. lia.
Qed.

Lemma supplied_nonempty (t : string) : t <> "" -> TaskView.supplied (Some t) = Some t.
Proof.
  intros Ht. unfold TaskView.supplied.
  destruct (String.eqb_spec t ""); [contradiction | reflexivity].
Qed.

Lemma rewriteTask_spliced
  (exec : string -> option TaskView.RegExpMatch) (vault : Vault.Vault)
  (task : TaskView.SListItem) (desiredStatus replacement raw : string) :
  Vault.files vault !! TaskView.path task = Some raw ->
  ~ RewriteSpec.nothingToDo task desiredStatus (Some replacement) ->
  replacement <> "" ->
  RewriteSpec.guardsPass exec task raw ->
  TaskView.rewriteTask exec vault task desiredStatus (Some replacement)
  = RewriteSpec.written
      (Vault.write (fst (Vault.read vault (TaskView.path task))) (TaskView.path task)
         (RewriteSpec.splicedDocument raw task desiredStatus replacement)).
Proof.
  intros Hfile Hchange Htext (Hline & m & box & body & Hm & H2 & Hbox & H3 & Hbody).
  unfold TaskView.rewriteTask.
  destruct (_ && _) eqn:Hnoop;
    [apply (nothingToDo_test task desiredStatus (Some replacement)) in Hnoop;
     contradiction|].
  unfold Vault.read at 1. rewrite Hfile.
  apply Nat.ltb_ge in Hline. rewrite Hline, Hm, H2.
  destruct box as [|c box]; [contradiction|]. simpl String.length. simpl Nat.eqb.
  rewrite H3. fold (RewriteSpec.cachedFirstLine task). rewrite Hbody, String.eqb_refl.
  simpl negb. cbv iota. rewrite (supplied_nonempty replacement Htext).
  rewrite rewriteTask_newTextLines. reflexivity.
Qed.

(** C7 (as the code has it): when [rewriteTask] is called with a
    replacement text that is not empty, in a call that is no no-op, and the
    document is read and passes all guards, the [lineCount] lines of the
    document from the addressed line on (as many of them as there are) are
    replaced by the lines of the replacement text: line 0 as
    [<indent><marker> [<status>] <firstLine>], with the leading white space
    of the addressed line as indent, the marker of the node and the status
    asked for (a space for the empty string); every other line as
    [<indent><tab><line>]; and the lines are joined again with CRLF if the
    document read holds a carriage return, else with LF, and handed to the
    host in one write.  The call resolves with that document in the vault;
    if the host refuses the write it is rejected and the documents are as
    they were. *)
Theorem rewriteTask_splices_replacement
  (exec : string -> option TaskView.RegExpMatch) (vault : Vault.Vault)
  (task : TaskView.SListItem) (desiredStatus replacement raw : string)
  (Hfile : Vault.files vault !! TaskView.path task = Some raw)
  (Hchange : ~ RewriteSpec.nothingToDo task desiredStatus (Some replacement))
  (Htext : replacement <> "")
  (Hguards : RewriteSpec.guardsPass exec task raw) :
  Vault.io (fst (TaskView.rewriteTask exec vault task desiredStatus (Some replacement)))
  = (Vault.io vault
     ++ [Vault.ReadEvent (TaskView.path task);
         Vault.WriteEvent (TaskView.path task)
           (RewriteSpec.splicedDocument raw task desiredStatus replacement)])%list
  /\ snd (TaskView.rewriteTask exec vault task desiredStatus (Some replacement))
     = (if Vault.refuses vault (TaskView.path task)
             (RewriteSpec.splicedDocument raw task desiredStatus replacement)
        then TaskView.Rejected (IOError "write rejected")
        else TaskView.Resolved)
  /\ Vault.files (fst (TaskView.rewriteTask exec vault task desiredStatus (Some replacement)))
     = (if Vault.refuses vault (TaskView.path task)
             (RewriteSpec.splicedDocument raw task desiredStatus replacement)
        then Vault.files vault
        else <[ TaskView.path task :=
                  RewriteSpec.splicedDocument raw task desiredStatus replacement ]>
               (Vault.files vault)).
Proof.
  rewrite (rewriteTask_spliced exec vault task desiredStatus replacement raw
             Hfile Hchange Htext Hguards).
  unfold RewriteSpec.written, Vault.write, Vault.read. simpl.
  destruct (Vault.refuses vault _ _); simpl; rewrite <- app_assoc; repeat split.
Qed.

Lemma rewriteTask_splices_replacement_witness :
  Vault.files Sample.packVault !! TaskView.path Sample.packTask = Some Sample.packDocument
  /\ ~ RewriteSpec.nothingToDo Sample.packTask "X" (Some Sample.packReplacement)
  /\ Sample.packReplacement <> ""
  /\ RewriteSpec.guardsPass TaskView.listItemGrammar_exec Sample.packTask Sample.packDocument
  /\ Vault.files (fst (TaskView.rewriteTask TaskView.listItemGrammar_exec Sample.packVault
                         Sample.packTask "X" (Some Sample.packReplacement)))
     = <[ "trip.md" := Sample.packedDocument ]> (Vault.files Sample.packVault).
Proof.
  assert (Vault.files Sample.packVault !! TaskView.path Sample.packTask
          = Some Sample.packDocument) as Hfile by (vm_compute; reflexivity).
  assert (~ RewriteSpec.nothingToDo Sample.packTask "X" (Some Sample.packReplacement))
    as Hchange by (intros [H _]; discriminate H).
  assert (Sample.packReplacement <> "") as Htext by discriminate.
  assert (RewriteSpec.guardsPass TaskView.listItemGrammar_exec Sample.packTask
            Sample.packDocument) as Hguards.
  { split; [vm_compute; lia|].
    exists (TaskView.mkMatch (Some "-") (Some "[ ]") (Some "pack")), "[ ]", "pack".
    repeat split; try reflexivity. discriminate. }
  assert (RewriteSpec.splicedDocument Sample.packDocument Sample.packTask "X"
            Sample.packReplacement = Sample.packedDocument) as Hdoc
    by (vm_compute; reflexivity).
  split; [exact Hfile|]. split; [exact Hchange|]. split; [exact Htext|].
  split; [exact Hguards|].
  rewrite <- Hdoc.
  exact (proj2 (proj2 (rewriteTask_splices_replacement TaskView.listItemGrammar_exec
                         Sample.packVault Sample.packTask "X" Sample.packReplacement
                         Sample.packDocument Hfile Hchange Htext Hguards))).
Defined.

(** Called with the empty string as replacement text, on a document that
    passes all guards, [rewriteTask] does not splice: it rewrites the status
    of the addressed line and keeps the text of the node. *)
Lemma rewriteTask_empty_replacement_keeps_text :
  RewriteSpec.guardsPass TaskView.listItemGrammar_exec Sample.milkTask Sample.milkDocument
  /\ ~ RewriteSpec.nothingToDo Sample.milkTask "X" (Some "")
  /\ RewriteSpec.splicedDocument Sample.milkDocument Sample.milkTask "X" ""
     = "- [X] " +:+ String JS.LF ""
  /\ Vault.files (fst (TaskView.rewriteTask TaskView.listItemGrammar_exec Sample.milkVault
                         Sample.milkTask "X" (Some "")))
     !! "list.md"
     = Some ("- [X] buy milk" +:+ String JS.LF "")
  /\ Vault.files (fst (TaskView.rewriteTask TaskView.listItemGrammar_exec Sample.milkVault
                         Sample.milkTask "X" (Some "")))
     <> <[ "list.md" := RewriteSpec.splicedDocument Sample.milkDocument Sample.milkTask "X" "" ]>
          (Vault.files Sample.milkVault).
Proof.
  assert (Vault.files (fst (TaskView.rewriteTask TaskView.listItemGrammar_exec
                              Sample.milkVault Sample.milkTask "X" (Some "")))
          !! "list.md"
          = Some ("- [X] buy milk" +:+ String JS.LF "")) as Hwritten
    by (vm_compute; reflexivity).
  split.
  { split; [vm_compute; lia|].
    exists (TaskView.mkMatch (Some "-") (Some "[ ]") (Some "buy milk")), "[ ]", "buy milk".
    repeat split; try reflexivity. discriminate. }
  split; [intros [H _]; discriminate H|].
  split; [reflexivity|]. split; [exact Hwritten|].
  intros Heq. rewrite Heq in Hwritten. rewrite lookup_insert_eq in Hwritten.
  vm_compute in Hwritten. discriminate Hwritten.
Qed.

(** On a line whose captured body is empty, for a node whose text is empty
    too, every guard passes and [rewriteTask] writes the document. *)
Lemma rewriteTask_empty_body_written :
  (exists m, TaskView.listItemGrammar_exec
               (TaskView.lineAt (JS.splitLines Sample.bareDocument)
                  (TaskView.line Sample.bareTask)) = Some m
             /\ TaskView.group3 m = Some "")
  /\ Vault.files (fst (TaskView.rewriteTask TaskView.listItemGrammar_exec Sample.bareVault
                         Sample.bareTask "X" None))
     !! "list.md" = Some "- [X] "
  /\ Vault.files (fst (TaskView.rewriteTask TaskView.listItemGrammar_exec Sample.bareVault
                         Sample.bareTask "X" None))
     <> Vault.files Sample.bareVault
  /\ RewriteSpec.writes (fst (TaskView.rewriteTask TaskView.listItemGrammar_exec
                                Sample.bareVault Sample.bareTask "X" None))
     = [Vault.WriteEvent "list.md" "- [X] "].
Proof.
  assert (Vault.files (fst (TaskView.rewriteTask TaskView.listItemGrammar_exec
                              Sample.bareVault Sample.bareTask "X" None))
          !! "list.md" = Some "- [X] ") as Hwritten by (vm_compute; reflexivity).
  split; [eexists; split; reflexivity|].
  split; [exact Hwritten|]. split; [|reflexivity].
  intros Heq. rewrite Heq in Hwritten. vm_compute in Hwritten. discriminate Hwritten.
Qed.

(** The no-break space is white space for [trim] and for [\s]: a node whose
    text ends in one is not stale, and an indent that is one is kept. *)
Lemma rewriteTask_no_break_space :
  JS.trim (TaskView.text Sample.nbspTask) = "buy milk"
  /\ JS.leadingSpace Sample.nbspDocument = String JS.NBSP ""
  /\ Vault.files (fst (TaskView.rewriteTask TaskView.listItemGrammar_exec Sample.nbspVault
                         Sample.nbspTask "X" None))
     !! "list.md"
     = Some (String JS.NBSP "- [X] buy milk").
Proof. repeat split; vm_compute; reflexivity. Qed.

(** A write the host refuses: the call is rejected after its read and its
    write, and the document is as it was. *)
Lemma rewriteTask_write_refused :
  TaskView.rewriteTask TaskView.listItemGrammar_exec Sample.lockedVault Sample.milkTask
    "X" None
  = (Vault.mkVault (Vault.files Sample.lockedVault)
       [Vault.ReadEvent "list.md";
        Vault.WriteEvent "list.md" ("- [X] buy milk" +:+ String JS.LF "")]
       (Vault.refuses Sample.lockedVault),
     TaskView.Rejected (IOError "write rejected")).
Proof. reflexivity. Qed.

(** C3: [trimEndingLines] computes the index of the last line that is not
    blank and then joins every line, so unmarking a task removes no line:
    the result is the text [setInlineField] returns with its line breaks
    written as line feeds.  A text that ends in two blank lines and holds
    no field comes back with both of them. *)
Theorem setTaskCompletion_keeps_trailing_blank_lines :
  (forall (setInlineField : string -> string -> option string -> string)
          (today text key : string),
     TaskView.setTaskCompletion setInlineField today text key false
     = JS.join (String JS.LF "") (JS.splitLines (setInlineField text key None)))
  /\ TaskView.trimEndingLines Sample.blankEndedText = Sample.blankEndedText
  /\ TaskView.setTaskCompletion Sample.noField "2022-01-01" Sample.blankEndedText
       "completion" false
     = "buy milk" +:+ String JS.LF (String JS.LF "").
Proof. repeat split. Qed.

(** ** The range of the comparator *)

Section CompareRange.
Import Values.
Variable localeCompare : string -> string -> Z.
Hypothesis localeCompare_sign : forall x y, isSign (localeCompare x y).

Lemma firstDifference_some (cmp : Literal -> Literal -> Z) (f1 f2 : list Literal) (c : Z) :
  firstDifference cmp f1 f2 = Some c ->
  exists x y, In x f1 /\ In y f2 /\ c = cmp x y.
Proof.
  revert f2. induction f1 as [|x f1 IH]; intros [|y f2] H; simpl in H; try discriminate H.
  destruct (negb (cmp x y =? 0)).
  - injection H as <-. exists x, y. simpl. auto.
  - destruct (IH f2 H) as (x' & y' & Hx & Hy & ->). exists x', y'. simpl. auto.
Qed.

Lemma compareProperties_result (cmp : Literal -> Literal -> Z)
  (o1 o2 : list (string * Literal)) (k1 : list string) :
  compareProperties cmp o1 o2 k1 = 0
  \/ exists key, compareProperties cmp o1 o2 k1 = cmp (get o1 key) (get o2 key).
Proof.
  induction k1 as [|key k1 IH]; simpl; [left; reflexivity|].
  destruct (negb (cmp (get o1 key) (get o2 key) =? 0)); [right; eauto | exact IH].
Qed.

Lemma containerLengths_get (o : list (string * Literal)) (key : string) (n : nat) :
  In n (containerLengths (get o key)) ->
  In n (flat_map (fun kv => containerLengths (snd kv)) o).
Proof.
  induction o as [|[k v] o IH]; simpl; [tauto|].
  intros H. apply in_or_app. destruct (String.eqb k key); auto.
Qed.

Lemma containerLengths_element (l : list Literal) (x : Literal) (n : nat) :
  In x l -> In n (containerLengths x) -> In n (flat_map containerLengths l).
Proof. intros Hx Hn. apply in_flat_map. eauto. Qed.

Lemma insertSorted_length (k : string) (l : list string) :
  length (JS.insertSorted k l) = S (length l).
Proof.
  induction l as [|x l IH]; simpl; [reflexivity|].
  destruct (String.leb k x); simpl; congruence.
Qed.

Lemma sort_length (l : list string) : length (JS.sort l) = length l.
Proof.
  induction l as [|x l IH]; simpl; [reflexivity|].
  rewrite insertSorted_length. congruence.
Qed.

Lemma containerLengths_keys (ks : list string) :
  containerLengths (LArray (map LString ks)) = [length ks].
Proof.
  simpl. rewrite length_map. f_equal.
  induction ks as [|k ks IH]; simpl; [reflexivity | exact IH].
Qed.

Lemma compareLinks_sign (normalize : string -> string) (link1 link2 : Link.Link) :
  isSign (compareLinks localeCompare normalize link1 link2).
Proof.
  unfold compareLinks.
  repeat match goal with
         | |- context [if ?c then _ else _] => destruct c
         end; try apply localeCompare_sign; unfold isSign; auto.
Qed.

Lemma compareArrays_range (self : Literal -> Literal -> Z) (f1 f2 : list Literal) :
  (forall x y, inRange x y (self x y)) ->
  inRange (LArray f1) (LArray f2) (compareArrays self f1 f2).
Proof.
  intros Hself. unfold compareArrays.
  destruct (firstDifference self f1 f2) as [c|] eqn:Hc.
  - destruct (firstDifference_some self f1 f2 c Hc) as (x & y & Hx & Hy & ->).
    destruct (Hself x y) as [Hs | (n1 & n2 & H1 & H2 & Hz)]; [left; exact Hs|].
    right. exists n1, n2. simpl. split; [|split; [|exact Hz]]; right;
      eapply containerLengths_element; eassumption.
  - right. exists (length f1), (length f2). simpl. auto.
Qed.

Lemma compareObjects_range (self : Literal -> Literal -> Z)
  (o1 o2 : list (string * Literal)) :
  (forall x y, inRange x y (self x y)) ->
  inRange (LObject o1) (LObject o2)
    (let k1 := JS.sort (keys o1) in
     let k2 := JS.sort (keys o2) in
     let keyCompare := self (LArray (map LString k1)) (LArray (map LString k2)) in
     if negb (keyCompare =? 0) then keyCompare
     else compareProperties self o1 o2 k1).
Proof.
  intros Hself. cbv zeta.
  destruct (negb _).
  - destruct (Hself (LArray (map LString (JS.sort (keys o1))))
                    (LArray (map LString (JS.sort (keys o2)))))
      as [Hs | (n1 & n2 & H1 & H2 & Hz)]; [left; exact Hs|].
    rewrite containerLengths_keys in H1, H2.
    unfold keys in H1, H2. rewrite sort_length, length_map in H1, H2.
    destruct H1 as [<- | []]. destruct H2 as [<- | []].
    right. exists (length o1), (length o2). simpl. auto.
  - destruct (compareProperties_result self o1 o2 (JS.sort (keys o1))) as [-> | [key ->]].
    + left. unfold isSign. auto.
    + destruct (Hself (get o1 key) (get o2 key)) as [Hs | (n1 & n2 & H1 & H2 & Hz)];
        [left; exact Hs|].
      right. exists n1, n2. simpl.
      split; [|split; [|exact Hz]]; right; eapply containerLengths_get; eassumption.
Qed.

Lemma compareValue_body_range (self : Literal -> Literal -> Z)
  (val1 val2 : Literal) (n : option (string -> string)) :
  (forall x y, inRange x y (self x y)) ->
  inRange val1 val2 (compareValue_body localeCompare self val1 val2 n).
Proof.
  intros Hself.
  destruct val1, val2; cbn;
    try (left; first [ apply localeCompare_sign
                     | apply compareLinks_sign
                     | unfold isSign;
                       repeat match goal with
                              | |- context [if ?c then _ else _] => destruct c
                              end; auto ]; fail).
  - apply compareArrays_range, Hself.
  - apply (compareObjects_range self o o0 Hself).
Qed.

Lemma compareValue_fuel_range (fuel : nat) :
  forall val1 val2 n, inRange val1 val2 (compareValue_fuel localeCompare fuel val1 val2 n).
Proof.
  induction fuel as [|fuel IH]; intros val1 val2 n; simpl.
  - left. unfold isSign. auto.
  - apply compareValue_body_range. intros x y. apply IH.
Qed.

End CompareRange.


Lemma codeUnitCompare_sign (x y : string) : isSign (JS.codeUnitCompare x y).
Proof. unfold JS.codeUnitCompare, isSign. destruct (String.compare x y); auto. Qed.



(** ** The recursion of the comparator

    [compareValue] never runs out of fuel: it satisfies the recursive
    equation of the source, with itself at the recursive calls. *)

Section CompareEquation.
Import Values.
Variable localeCompare : string -> string -> Z.

Lemma depth_element (l : list Literal) (x : Literal) :
  In x l -> (depth x <= list_max (map depth l))%nat.
Proof.
  intros Hx. assert (Forall (fun k => (k <= list_max (map depth l))%nat) (map depth l)) as H
    by (apply list_max_le; lia).
  rewrite List.Forall_forall in H. apply H. apply in_map, Hx.
Qed.

Lemma depth_get (o : list (string * Literal)) (key : string) :
  (depth (get o key) <= S (list_max (map (fun kv => depth (snd kv)) o)))%nat.
Proof.
  induction o as [|[k v] o IH]; simpl; [lia|].
  destruct (String.eqb k key); simpl in *; lia.
Qed.

Lemma depth_keys (o : list (string * Literal)) :
  (depth (LArray (map LString (JS.sort (keys o))))
   <= S (list_max (map (fun kv => depth (snd kv)) o)))%nat.
Proof.
  simpl. apply le_n_S. apply list_max_le. rewrite List.Forall_forall.
  intros d Hd. apply in_map_iff in Hd as (x & <- & Hx).
  apply in_map_iff in Hx as (k & <- & Hk). simpl.
  destruct o as [|[k0 v0] o]; simpl.
  - destruct Hk.
  - pose proof (depth_succ v0) as [m Hm]. lia.
Qed.

Lemma firstDifference_ext (self1 self2 : Literal -> Literal -> Z) (f1 f2 : list Literal) :
  (forall x y, In x f1 -> self1 x y = self2 x y) ->
  firstDifference self1 f1 f2 = firstDifference self2 f1 f2.
Proof.
  revert f2. induction f1 as [|x f1 IH]; intros [|y f2] H; simpl; try reflexivity.
  rewrite (H x y) by (left; reflexivity).
  rewrite IH by (intros; apply H; right; assumption). reflexivity.
Qed.

Lemma compareProperties_ext (self1 self2 : Literal -> Literal -> Z)
  (o1 o2 : list (string * Literal)) (k1 : list string) :
  (forall key y, self1 (get o1 key) y = self2 (get o1 key) y) ->
  compareProperties self1 o1 o2 k1 = compareProperties self2 o1 o2 k1.
Proof.
  intros H. induction k1 as [|key k1 IH]; simpl; [reflexivity|].
  rewrite H, IH. reflexivity.
Qed.

Lemma compareValue_body_ext (self1 self2 : Literal -> Literal -> Z)
  (val1 val2 : Literal) (n : option (string -> string)) :
  (forall x y, (depth x < depth val1)%nat -> self1 x y = self2 x y) ->
  compareValue_body localeCompare self1 val1 val2 n
  = compareValue_body localeCompare self2 val1 val2 n.
Proof.
  intros H. destruct val1, val2; try reflexivity; cbn.
  - unfold compareArrays. rewrite (firstDifference_ext self1 self2); [reflexivity|].
    intros x y Hx. apply H. simpl. pose proof (depth_element l x Hx). lia.
  - rewrite (H (LArray (map LString (JS.sort (keys o)))))
      by (pose proof (depth_keys o); simpl in *; lia).
    rewrite (compareProperties_ext self1 self2); [reflexivity|].
    intros key y. apply H. pose proof (depth_get o key). simpl. lia.
Qed.

Lemma compareValue_fuel_enough (fuel1 : nat) :
  forall fuel2 val1 val2 n,
    (depth val1 <= fuel1)%nat -> (depth val1 <= fuel2)%nat ->
    compareValue_fuel localeCompare fuel1 val1 val2 n
    = compareValue_fuel localeCompare fuel2 val1 val2 n.
Proof.
  induction fuel1 as [|fuel1 IH]; intros fuel2 val1 val2 n H1 H2.
  - destruct (depth_succ val1) as [m Hm]. lia.
  - destruct fuel2 as [|fuel2]; [destruct (depth_succ val1) as [m Hm]; lia|].
    simpl. apply compareValue_body_ext. intros x y Hx. apply IH; lia.
Qed.

(** The equation of the source. *)
Lemma compareValue_equation (val1 val2 : Literal) (n : option (string -> string)) :
  compareValue localeCompare val1 val2 n
  = compareValue_body localeCompare
      (fun a b => compareValue localeCompare a b None) val1 val2 n.
Proof.
  destruct (compareValue_unfold localeCompare val1 val2 n) as (fuel & Hd & ->).
  apply compareValue_body_ext. intros x y Hx.
  unfold compareValue. apply compareValue_fuel_enough; lia.
Qed.

End CompareEquation.

(** ** The laws of the comparator away from its unordered leaves *)

Import Values Order.

(** *** Comparisons in sequence *)
Lemma lex_zero c : lex 0 c = c.
Proof. reflexivity. Qed.

Lemma lex_opposite a1 a2 b1 b2 :
  opposite a1 b1 -> (a1 = 0 -> b1 = 0 -> opposite a2 b2) -> opposite (lex a1 a2) (lex b1 b2).
Proof.
  unfold opposite, lex. intros H1 H2.
  destruct (Z.eqb_spec a1 0), (Z.eqb_spec b1 0); simpl; lia.
Qed.

Lemma lex_chained a1 a2 b1 b2 c1 c2 :
  chained a1 b1 c1 -> (a1 = 0 -> b1 = 0 -> c1 = 0 -> chained a2 b2 c2) ->
  chained (lex a1 a2) (lex b1 b2) (lex c1 c2).
Proof.
  unfold chained, lex. intros H1 H2.
  destruct (Z.eqb_spec a1 0), (Z.eqb_spec b1 0), (Z.eqb_spec c1 0); simpl; lia.
Qed.

Section DerivedLaws.
Context {A : Type} (Q : A -> Prop) (cmp : A -> A -> Z) (H : orderLaws Q cmp).

Lemma laws_opposite x y : Q x -> Q y -> opposite (cmp x y) (cmp y x).
Proof.
  intros Hx Hy. unfold opposite.
  pose proof (laws_antisym Q cmp H x y Hx Hy).
  pose proof (laws_antisym Q cmp H y x Hy Hx).
  lia.
Qed.

Lemma laws_chained x y z : Q x -> Q y -> Q z -> chained (cmp x y) (cmp y z) (cmp x z).
Proof.
  intros Hx Hy Hz. unfold chained.
  pose proof (laws_opposite x y Hx Hy). pose proof (laws_opposite y z Hy Hz).
  pose proof (laws_opposite x z Hx Hz). unfold opposite in *.
  pose proof (laws_trans Q cmp H x y z Hx Hy Hz).
  pose proof (laws_trans Q cmp H y z x Hy Hz Hx).
  pose proof (laws_trans Q cmp H z x y Hz Hx Hy).
  pose proof (laws_trans Q cmp H z y x Hz Hy Hx).
  lia.
Qed.
End DerivedLaws.

Lemma orderLaws_of {A : Type} (Q : A -> Prop) (cmp : A -> A -> Z) :
  (forall x, Q x -> cmp x x = 0) ->
  (forall x y, Q x -> Q y -> opposite (cmp x y) (cmp y x)) ->
  (forall x y z, Q x -> Q y -> Q z -> chained (cmp x y) (cmp y z) (cmp x z)) ->
  orderLaws Q cmp.
Proof.
  intros Hr Ho Hc. split.
  - exact Hr.
  - intros x y Hx Hy. apply (Ho x y Hx Hy).
  - intros x y z Hx Hy Hz. apply (Hc x y z Hx Hy Hz).
Qed.

(** *** The array loop *)
Lemma compareArrays_cons (cmp : Literal -> Literal -> Z) x xs y ys :
  compareArrays cmp (x :: xs) (y :: ys) = lex (cmp x y) (compareArrays cmp xs ys).
Proof.
  unfold compareArrays, lex. simpl firstDifference.
  destruct (negb (cmp x y =? 0)); [reflexivity|].
  destruct (firstDifference cmp xs ys); [reflexivity|]. simpl length. lia.
Qed.

Lemma compareArrays_nil_l (cmp : Literal -> Literal -> Z) ys :
  compareArrays cmp [] ys = - Z.of_nat (length ys).
Proof. unfold compareArrays. simpl. lia. Qed.

Lemma compareArrays_nil_r (cmp : Literal -> Literal -> Z) xs :
  compareArrays cmp xs [] = Z.of_nat (length xs).
Proof. unfold compareArrays. destruct xs; simpl; lia. Qed.

Lemma lex_is_zero c1 c2 : lex c1 c2 = 0 <-> c1 = 0 /\ c2 = 0.
Proof. unfold lex. destruct (Z.eqb_spec c1 0); simpl; lia. Qed.

Section ArrayLaws.
Variable Q : Literal -> Prop.
Variable cmp : Literal -> Literal -> Z.
Hypothesis laws : orderLaws Q cmp.

Lemma compareArrays_refl l : Forall Q l -> compareArrays cmp l l = 0.
Proof.
  induction 1 as [|x l Hx _ IH]; [reflexivity|].
  rewrite compareArrays_cons, (laws_refl Q cmp laws x Hx), IH. reflexivity.
Qed.

Lemma compareArrays_opposite l1 : forall l2,
  Forall Q l1 -> Forall Q l2 ->
  opposite (compareArrays cmp l1 l2) (compareArrays cmp l2 l1).
Proof.
  induction l1 as [|x l1 IH]; intros [|y l2] H1 H2;
    rewrite ?compareArrays_cons, ?compareArrays_nil_l, ?compareArrays_nil_r;
    try (unfold opposite; simpl length; lia).
  inversion H1; inversion H2; subst.
  apply lex_opposite; [apply (laws_opposite Q cmp laws); assumption|].
  intros _ _. apply IH; assumption.
Qed.

Lemma compareArrays_chained l1 : forall l2 l3,
  Forall Q l1 -> Forall Q l2 -> Forall Q l3 ->
  chained (compareArrays cmp l1 l2) (compareArrays cmp l2 l3) (compareArrays cmp l1 l3).
Proof.
  induction l1 as [|x l1 IH]; intros [|y l2] [|z l3] H1 H2 H3;
    rewrite ?compareArrays_cons, ?compareArrays_nil_l, ?compareArrays_nil_r;
    try (unfold chained; simpl length; lia).
  inversion H1; inversion H2; inversion H3; subst.
  apply lex_chained; [apply (laws_chained Q cmp laws); assumption|].
  intros _ _ _. apply IH; assumption.
Qed.

Lemma compareProperties_arrays o1 o2 ks :
  compareProperties cmp o1 o2 ks = compareArrays cmp (map (get o1) ks) (map (get o2) ks).
Proof.
  induction ks as [|k ks IH]; [reflexivity|].
  simpl map. rewrite compareArrays_cons. simpl. rewrite IH. reflexivity.
Qed.

End ArrayLaws.

(** *** Numbers *)
Lemma SFcompare_keys (f1 f2 : spec_float) :
  f1 <> S754_nan -> f2 <> S754_nan ->
  SFcompare f1 f2 = Some (compareKeys (floatKey f1) (floatKey f2)).
Proof.
  intros H1 H2.
  destruct f1 as [s1|s1| |s1 m1 e1], f2 as [s2|s2| |s2 m2 e2];
    try contradiction; try destruct s1; try destruct s2; try reflexivity.
  cbn [SFcompare floatKey compareKeys]. change (-1 ?= -1) with Eq. cbv iota.
  rewrite Z.compare_opp, (Z.compare_antisym e1 e2).
  destruct (e1 ?= e2); reflexivity.
Qed.

Lemma not_nan (x : float) : PrimFloat.eqb x x = true -> Prim2SF x <> S754_nan.
Proof.
  rewrite FloatAxioms.eqb_spec. intros H E. rewrite E in H. discriminate H.
Qed.

Lemma numberOrder_keys (x y : float) :
  PrimFloat.eqb x x = true -> PrimFloat.eqb y y = true ->
  numberOrder x y
  = match compareKeys (floatKey (Prim2SF x)) (floatKey (Prim2SF y)) with
    | Lt => -1 | Eq => 0 | Gt => 1
    end.
Proof.
  intros Hx Hy. unfold numberOrder. rewrite FloatAxioms.ltb_spec, FloatAxioms.eqb_spec.
  unfold SFltb, SFeqb.
  rewrite (SFcompare_keys _ _ (not_nan x Hx) (not_nan y Hy)).
  destruct (compareKeys _ _); reflexivity.
Qed.

Lemma compareKeys_spec (a b : Z * Z * Z) :
  let '(a1, a2, a3) := a in
  let '(b1, b2, b3) := b in
  match compareKeys a b with
  | Lt => a1 < b1 \/ (a1 = b1 /\ (a2 < b2 \/ (a2 = b2 /\ a3 < b3)))
  | Eq => a1 = b1 /\ a2 = b2 /\ a3 = b3
  | Gt => b1 < a1 \/ (a1 = b1 /\ (b2 < a2 \/ (a2 = b2 /\ b3 < a3)))
  end.
Proof.
  destruct a as [[a1 a2] a3], b as [[b1 b2] b3]. simpl.
  destruct (Z.compare_spec a1 b1); [|lia|lia].
  destruct (Z.compare_spec a2 b2); [|lia|lia].
  destruct (Z.compare_spec a3 b3); lia.
Qed.

Lemma numberOrder_refl x : PrimFloat.eqb x x = true -> numberOrder x x = 0.
Proof.
  intros Hx. rewrite numberOrder_keys by assumption.
  pose proof (compareKeys_spec (floatKey (Prim2SF x)) (floatKey (Prim2SF x))) as H.
  destruct (floatKey (Prim2SF x)) as [[a1 a2] a3].
  destruct (compareKeys _ _); lia.
Qed.

Lemma numberOrder_antisym x y :
  PrimFloat.eqb x x = true -> PrimFloat.eqb y y = true ->
  numberOrder y x = - numberOrder x y.
Proof.
  intros Hx Hy. rewrite !numberOrder_keys by assumption.
  pose proof (compareKeys_spec (floatKey (Prim2SF x)) (floatKey (Prim2SF y))) as H.
  pose proof (compareKeys_spec (floatKey (Prim2SF y)) (floatKey (Prim2SF x))) as H'.
  destruct (floatKey (Prim2SF x)) as [[a1 a2] a3].
  destruct (floatKey (Prim2SF y)) as [[b1 b2] b3].
  destruct (compareKeys _ _), (compareKeys _ _); lia.
Qed.

Lemma numberOrder_trans x y z :
  PrimFloat.eqb x x = true -> PrimFloat.eqb y y = true -> PrimFloat.eqb z z = true ->
  numberOrder x y <= 0 -> numberOrder y z <= 0 -> numberOrder x z <= 0.
Proof.
  intros Hx Hy Hz. rewrite !numberOrder_keys by assumption.
  pose proof (compareKeys_spec (floatKey (Prim2SF x)) (floatKey (Prim2SF y))) as H.
  pose proof (compareKeys_spec (floatKey (Prim2SF y)) (floatKey (Prim2SF z))) as H'.
  pose proof (compareKeys_spec (floatKey (Prim2SF x)) (floatKey (Prim2SF z))) as H''.
  destruct (floatKey (Prim2SF x)) as [[a1 a2] a3].
  destruct (floatKey (Prim2SF y)) as [[b1 b2] b3].
  destruct (floatKey (Prim2SF z)) as [[c1 c2] c3].
  destruct (compareKeys _ _), (compareKeys _ _), (compareKeys _ _); lia.
Qed.

(** *** The other leaves *)
Section Leaves.
Variable lc : string -> string -> Z.
Hypothesis Hlc : localeOrder lc.
Variable settings : Luxon.Settings.

Let lcLaws := locale_laws lc Hlc.

Lemma lc_refl x : lc x x = 0.
Proof. apply (laws_refl _ _ lcLaws). exact I. Qed.
Lemma lc_opposite x y : opposite (lc x y) (lc y x).
Proof. apply (laws_opposite _ _ lcLaws); exact I. Qed.
Lemma lc_chained x y z : chained (lc x y) (lc y z) (lc x z).
Proof. apply (laws_chained _ _ lcLaws); exact I. Qed.

Lemma booleanOrder_laws : orderLaws (fun _ => True) booleanOrder.
Proof.
  split.
  - intros []; reflexivity.
  - intros [] [] _ _; unfold booleanOrder; simpl; lia.
  - intros [] [] [] _ _ _; unfold booleanOrder; simpl; lia.
Qed.

Lemma numberOrder_laws : orderLaws (fun x => PrimFloat.eqb x x = true) numberOrder.
Proof.
  split.
  - apply numberOrder_refl.
  - intros x y Hx Hy. rewrite (numberOrder_antisym x y Hx Hy). lia.
  - apply numberOrder_trans.
Qed.

Lemma Locale_equals_refl (l : Luxon.Locale) : Luxon.Locale_equals l l = true.
Proof.
  unfold Luxon.Locale_equals. rewrite String.eqb_refl.
  destruct (Luxon.numberingSystem l), (Luxon.outputCalendar l); simpl;
    rewrite ?String.eqb_refl; reflexivity.
Qed.

(** On the dates of one setting the date case compares the instants. *)
Lemma dateOrder_instants (x y : Luxon.DateTime) :
  orderableDate settings x -> orderableDate settings y ->
  dateOrder x y
  = if Luxon.ts x <? Luxon.ts y then -1 else if Luxon.ts x =? Luxon.ts y then 0 else 1.
Proof.
  intros (Hvx & Hzx & Hlx) (Hvy & Hzy & Hly).
  unfold dateOrder, Luxon.DateTime_equals, Luxon.DateTime_valueOf, Luxon.DateTime_toMillis.
  rewrite Hvx, Hvy, Hzx, Hzy, Hlx, Hly, String.eqb_refl, Locale_equals_refl. simpl.
  rewrite !andb_true_r. reflexivity.
Qed.

Lemma dateOrder_laws : orderLaws (orderableDate settings) dateOrder.
Proof.
  split.
  - intros x Hx. rewrite dateOrder_instants by assumption.
    rewrite Z.ltb_irrefl, Z.eqb_refl. reflexivity.
  - intros x y Hx Hy. rewrite !dateOrder_instants by assumption.
    destruct (Z.ltb_spec (Luxon.ts x) (Luxon.ts y)), (Z.ltb_spec (Luxon.ts y) (Luxon.ts x)),
      (Z.eqb_spec (Luxon.ts x) (Luxon.ts y)), (Z.eqb_spec (Luxon.ts y) (Luxon.ts x)); lia.
  - intros x y z Hx Hy Hz. rewrite !dateOrder_instants by assumption.
    destruct (Z.ltb_spec (Luxon.ts x) (Luxon.ts y)), (Z.ltb_spec (Luxon.ts y) (Luxon.ts z)),
      (Z.ltb_spec (Luxon.ts x) (Luxon.ts z)),
      (Z.eqb_spec (Luxon.ts x) (Luxon.ts y)), (Z.eqb_spec (Luxon.ts y) (Luxon.ts z)),
      (Z.eqb_spec (Luxon.ts x) (Luxon.ts z)); lia.
Qed.

Lemma radix_unique (k q r q' r' : Z) :
  0 <= r < k -> 0 <= r' < k -> q * k + r = q' * k + r' -> q = q' /\ r = r'.
Proof. intros Hr Hr' H. assert (q = q') as -> by nia. lia. Qed.

(** Two canonical durations of one length have the same units. *)
Lemma Duration_units_of_length (a b : Luxon.Duration) :
  canonicalDuration a -> canonicalDuration b ->
  Luxon.Duration_length a = Luxon.Duration_length b ->
  Luxon.years a = Luxon.years b /\ Luxon.quarters a = Luxon.quarters b
  /\ Luxon.months a = Luxon.months b /\ Luxon.weeks a = Luxon.weeks b
  /\ Luxon.days a = Luxon.days b /\ Luxon.hours a = Luxon.hours b
  /\ Luxon.minutes a = Luxon.minutes b /\ Luxon.seconds a = Luxon.seconds b
  /\ Luxon.milliseconds a = Luxon.milliseconds b.
Proof.
  unfold canonicalDuration, Luxon.Duration_length.
  intros (_ & Ams & As & Ami & Ah & Ad & Aw & Aw' & Am & Am' & Aq & Aq')
         (_ & Bms & Bs & Bmi & Bh & Bd & Bw & Bw' & Bm & Bm' & Bq & Bq') E.
  apply radix_unique in E as [E Hms]; [|lia|lia].
  apply radix_unique in E as [E Hs]; [|lia|lia].
  apply radix_unique in E as [E Hmi]; [|lia|lia].
  apply radix_unique in E as [E Hh]; [|lia|lia].
  assert (Luxon.years a * 365
          + (Luxon.quarters a * 91 + Luxon.months a * 30 + Luxon.weeks a * 7 + Luxon.days a)
          = Luxon.years b * 365
            + (Luxon.quarters b * 91 + Luxon.months b * 30 + Luxon.weeks b * 7
               + Luxon.days b)) as Ey by lia.
  apply radix_unique in Ey as [Hy Eq]; [|lia|lia].
  assert (Luxon.quarters a * 91 + (Luxon.months a * 30 + Luxon.weeks a * 7 + Luxon.days a)
          = Luxon.quarters b * 91
            + (Luxon.months b * 30 + Luxon.weeks b * 7 + Luxon.days b)) as Eq' by lia.
  apply radix_unique in Eq' as [Hq Em]; [|lia|lia].
  assert (Luxon.months a * 30 + (Luxon.weeks a * 7 + Luxon.days a)
          = Luxon.months b * 30 + (Luxon.weeks b * 7 + Luxon.days b)) as Em' by lia.
  apply radix_unique in Em' as [Hm Ew]; [|lia|lia].
  apply radix_unique in Ew as [Hw Hd]; [|lia|lia].
  repeat split; assumption.
Qed.

Lemma Duration_equals_units (a b : Luxon.Duration) :
  Luxon.Duration_equals a b = true
  <-> (Luxon.Duration_isValid a = true /\ Luxon.Duration_isValid b = true
       /\ Luxon.Locale_equals (Luxon.Duration_loc a) (Luxon.Duration_loc b) = true)
      /\ Luxon.years a = Luxon.years b /\ Luxon.quarters a = Luxon.quarters b
      /\ Luxon.months a = Luxon.months b /\ Luxon.weeks a = Luxon.weeks b
      /\ Luxon.days a = Luxon.days b /\ Luxon.hours a = Luxon.hours b
      /\ Luxon.minutes a = Luxon.minutes b /\ Luxon.seconds a = Luxon.seconds b
      /\ Luxon.milliseconds a = Luxon.milliseconds b.
Proof. unfold Luxon.Duration_equals. rewrite !andb_true_iff, !Z.eqb_eq. tauto. Qed.

(** On the canonical durations of one setting the duration case compares
    the lengths. *)
Lemma durationOrder_lengths (x y : Luxon.Duration) :
  orderableDuration settings x -> orderableDuration settings y ->
  durationOrder x y
  = if Luxon.Duration_length x <? Luxon.Duration_length y then -1
    else if Luxon.Duration_length x =? Luxon.Duration_length y then 0 else 1.
Proof.
  intros [Hlx Hx] [Hly Hy].
  pose proof (Duration_units_of_length x y Hx Hy) as Hunits.
  pose proof (Duration_equals_units x y) as Heq.
  unfold durationOrder, Luxon.Duration_valueOf, Luxon.Duration_toMillis.
  rewrite (proj1 Hx), (proj1 Hy). simpl.
  destruct (Luxon.Duration_length x <? Luxon.Duration_length y); [reflexivity|].
  destruct (Z.eqb_spec (Luxon.Duration_length x) (Luxon.Duration_length y)) as [E|E].
  - rewrite (proj2 Heq); [reflexivity|]. split; [|exact (Hunits E)].
    rewrite Hlx, Hly, Locale_equals_refl. split; [apply Hx | split; [apply Hy | reflexivity]].
  - destruct (Luxon.Duration_equals x y); [|reflexivity].
    exfalso. apply E.
    destruct (proj1 Heq eq_refl) as (_ & H1 & H2 & H3 & H4 & H5 & H6 & H7 & H8 & H9).
    unfold Luxon.Duration_length. congruence.
Qed.

Lemma durationOrder_laws : orderLaws (orderableDuration settings) durationOrder.
Proof.
  split.
  - intros x Hx. rewrite durationOrder_lengths by assumption.
    rewrite Z.ltb_irrefl, Z.eqb_refl. reflexivity.
  - intros x y Hx Hy. rewrite !durationOrder_lengths by assumption.
    destruct (Z.ltb_spec (Luxon.Duration_length x) (Luxon.Duration_length y)),
      (Z.ltb_spec (Luxon.Duration_length y) (Luxon.Duration_length x)),
      (Z.eqb_spec (Luxon.Duration_length x) (Luxon.Duration_length y)),
      (Z.eqb_spec (Luxon.Duration_length y) (Luxon.Duration_length x)); lia.
  - intros x y z Hx Hy Hz. rewrite !durationOrder_lengths by assumption.
    destruct (Z.ltb_spec (Luxon.Duration_length x) (Luxon.Duration_length y)),
      (Z.ltb_spec (Luxon.Duration_length y) (Luxon.Duration_length z)),
      (Z.ltb_spec (Luxon.Duration_length x) (Luxon.Duration_length z)),
      (Z.eqb_spec (Luxon.Duration_length x) (Luxon.Duration_length y)),
      (Z.eqb_spec (Luxon.Duration_length y) (Luxon.Duration_length z)),
      (Z.eqb_spec (Luxon.Duration_length x) (Luxon.Duration_length z)); lia.
Qed.

Lemma subpathOrder_laws : orderLaws (fun _ => True) (subpathOrder lc).
Proof.
  apply orderLaws_of; unfold subpathOrder.
  - intros x _. destruct (truthy x); simpl; [apply lc_refl | reflexivity].
  - intros x y _ _. destruct (truthy x), (truthy y); simpl;
      try (unfold opposite; lia). apply lc_opposite.
  - intros x y z _ _ _. destruct (truthy x), (truthy y), (truthy z); simpl;
      try (unfold chained; lia). apply lc_chained.
Qed.

Lemma compareLinks_lex (f : string -> string) (l1 l2 : Link.Link) :
  compareLinks lc f l1 l2
  = lex (lc (f (Link.path l1)) (f (Link.path l2)))
      (lex (lc (Link.typeName (Link.type l1)) (Link.typeName (Link.type l2)))
         (subpathOrder lc (Link.subpath l1) (Link.subpath l2))).
Proof. reflexivity. Qed.

Lemma compareLinks_laws (f : string -> string) :
  orderLaws (fun _ => True) (compareLinks lc f).
Proof.
  apply orderLaws_of.
  - intros x _. rewrite compareLinks_lex, !lc_refl, !lex_zero.
    apply (laws_refl _ _ subpathOrder_laws). exact I.
  - intros x y _ _. rewrite !compareLinks_lex.
    apply lex_opposite; [apply lc_opposite|]. intros _ _.
    apply lex_opposite; [apply lc_opposite|]. intros _ _.
    apply (laws_opposite _ _ subpathOrder_laws); exact I.
  - intros x y z _ _ _. rewrite !compareLinks_lex.
    apply lex_chained; [apply lc_chained|]. intros _ _ _.
    apply lex_chained; [apply lc_chained|]. intros _ _ _.
    apply (laws_chained _ _ subpathOrder_laws); exact I.
Qed.

End Leaves.

(** *** Classes, and the induction on the nesting *)
Section OrderLaws.
Variable lc : string -> string -> Z.
Hypothesis Hlc : localeOrder lc.
Variable settings : Luxon.Settings.

Local Abbreviation cmp n := (fun a b => compareValue lc a b n).

Lemma typeName_inj t1 t2 : typeName t1 = typeName t2 -> t1 = t2.
Proof. destruct t1, t2; simpl; intros H; try reflexivity; discriminate H. Qed.

Lemma compareClasses_laws : orderLaws (fun _ => True) (compareClasses lc).
Proof.
  apply orderLaws_of.
  - intros [| |t] _; simpl; try reflexivity. apply (lc_refl lc Hlc).
  - intros [| |t1] [| |t2] _ _; simpl; try (unfold opposite; lia).
    apply (lc_opposite lc Hlc).
  - intros [| |t1] [| |t2] [| |t3] _ _ _; simpl; try (unfold chained; lia).
    apply (lc_chained lc Hlc).
Qed.

Lemma compareClasses_eq c1 c2 : compareClasses lc c1 c2 = 0 -> c1 = c2.
Proof.
  destruct c1 as [| |t1], c2 as [| |t2]; simpl; intros H;
    try reflexivity; try discriminate H.
  apply (locale_eq lc Hlc) in H. apply typeName_inj in H. congruence.
Qed.

Lemma compareValue_classes x y n :
  classOf x <> classOf y ->
  compareValue lc x y n = compareClasses lc (classOf x) (classOf y).
Proof.
  intros H. rewrite compareValue_equation.
  destruct x, y; try reflexivity; exfalso; apply H; reflexivity.
Qed.

Lemma compareValue_lex_class x y n :
  compareValue lc x y n
  = lex (compareClasses lc (classOf x) (classOf y)) (compareValue lc x y n).
Proof.
  unfold lex. destruct (Z.eqb_spec (compareClasses lc (classOf x) (classOf y)) 0) as [E|E].
  - reflexivity.
  - simpl. apply compareValue_classes. intros Heq. apply E. rewrite Heq.
    apply (laws_refl _ _ compareClasses_laws). exact I.
Qed.

(** [compareValue] on two values of one constructor. *)
Lemma compareValue_string a b n : compareValue lc (LString a) (LString b) n = lc a b.
Proof. reflexivity. Qed.
Lemma compareValue_number a b n : compareValue lc (LNumber a) (LNumber b) n = numberOrder a b.
Proof. reflexivity. Qed.
Lemma compareValue_boolean a b n :
  compareValue lc (LBoolean a) (LBoolean b) n = booleanOrder a b.
Proof. reflexivity. Qed.
Lemma compareValue_date a b n : compareValue lc (LDate a) (LDate b) n = dateOrder a b.
Proof. reflexivity. Qed.
Lemma compareValue_duration a b n :
  compareValue lc (LDuration a) (LDuration b) n = durationOrder a b.
Proof. reflexivity. Qed.
Lemma compareValue_link a b n :
  compareValue lc (LLink a) (LLink b) n = compareLinks lc (default (fun x => x) n) a b.
Proof. reflexivity. Qed.
Lemma compareValue_array l1 l2 n :
  compareValue lc (LArray l1) (LArray l2) n = compareArrays (cmp None) l1 l2.
Proof. rewrite compareValue_equation. reflexivity. Qed.
Lemma compareValue_object o1 o2 n :
  compareValue lc (LObject o1) (LObject o2) n
  = lex (compareArrays (cmp None) (map LString (JS.sort (keys o1)))
           (map LString (JS.sort (keys o2))))
      (compareArrays (cmp None) (map (get o1) (JS.sort (keys o1)))
         (map (get o2) (JS.sort (keys o1)))).
Proof.
  rewrite compareValue_equation.
  change (compareValue_body lc (cmp None) (LObject o1) (LObject o2) n)
    with (lex (compareValue lc (LArray (map LString (JS.sort (keys o1))))
                 (LArray (map LString (JS.sort (keys o2)))) None)
            (compareProperties (cmp None) o1 o2 (JS.sort (keys o1)))).
  rewrite compareValue_array, compareProperties_arrays. reflexivity.
Qed.

Lemma orderable_array l : orderable settings (LArray l) <-> Forall (orderable settings) l.
Proof.
  simpl. induction l as [|x l IH]; simpl.
  - split; [constructor | trivial].
  - rewrite IH. split; [intros [? ?]; constructor; assumption | inversion 1; auto].
Qed.

Lemma orderable_object o :
  orderable settings (LObject o) <-> Forall (fun kv => orderable settings (snd kv)) o.
Proof.
  simpl. induction o as [|x o IH]; simpl.
  - split; [constructor | trivial].
  - rewrite IH. split; [intros [? ?]; constructor; assumption | inversion 1; auto].
Qed.

Lemma within_elements k l :
  within settings (S k) (LArray l) -> Forall (within settings k) l.
Proof.
  intros [Ho Hd]. apply orderable_array in Ho. simpl in Hd.
  rewrite List.Forall_forall in *. intros x Hx. split; [apply Ho, Hx|].
  pose proof (depth_element l x Hx). lia.
Qed.

Lemma orderable_get o key : orderable settings (LObject o) -> orderable settings (get o key).
Proof.
  intros Ho. apply orderable_object in Ho.
  induction Ho as [|[k v] o Hv _ IH]; simpl; [exact I|].
  destruct (String.eqb k key); assumption.
Qed.

Lemma within_properties k o ks :
  within settings (S k) (LObject o) -> Forall (within settings k) (map (get o) ks).
Proof.
  intros [Ho Hd]. rewrite List.Forall_forall. intros v Hv.
  apply in_map_iff in Hv as (key & <- & _). split; [apply orderable_get, Ho|].
  pose proof (depth_get o key). simpl in Hd. lia.
Qed.

Lemma within_keys k o :
  within settings (S k) (LObject o) -> Forall (within settings k) (map LString (JS.sort (keys o))).
Proof.
  intros [Ho Hd]. rewrite List.Forall_forall. intros v Hv.
  apply in_map_iff in Hv as (key & <- & _). split; [exact I|]. simpl in *. lia.
Qed.

Lemma keys_equal (k1 k2 : list string) :
  compareArrays (cmp None) (map LString k1) (map LString k2) = 0 -> k1 = k2.
Proof.
  revert k2. induction k1 as [|a k1 IH]; intros [|b k2]; simpl map;
    rewrite ?compareArrays_cons, ?compareArrays_nil_l, ?compareArrays_nil_r;
    simpl length; try lia; [reflexivity|].
  rewrite lex_is_zero, compareValue_string. intros [Hab Hrest].
  apply (locale_eq lc Hlc) in Hab. rewrite (IH k2 Hrest). congruence.
Qed.

Ltac same_class H :=
  cbn in H; first [discriminate H | idtac].

(** The laws at one more level of nesting. *)
Lemma compareValue_laws_step k n :
  orderLaws (within settings k) (cmp None) -> orderLaws (within settings (S k)) (cmp n).
Proof.
  intros IH. apply orderLaws_of.
  - intros x Hx. destruct x; try reflexivity.
    + rewrite compareValue_boolean. apply (laws_refl _ _ booleanOrder_laws). exact I.
    + rewrite compareValue_number. apply (laws_refl _ _ numberOrder_laws), Hx.
    + rewrite compareValue_string. apply (lc_refl lc Hlc).
    + rewrite compareValue_date. apply (laws_refl _ _ (dateOrder_laws settings)), Hx.
    + rewrite compareValue_duration. apply (laws_refl _ _ (durationOrder_laws settings)), Hx.
    + rewrite compareValue_link.
      apply (laws_refl _ _ (compareLinks_laws lc Hlc _)). exact I.
    + rewrite compareValue_array. apply (compareArrays_refl _ _ IH), within_elements, Hx.
    + rewrite compareValue_object.
      rewrite (compareArrays_refl _ _ IH) by (apply within_keys, Hx).
      rewrite lex_zero. apply (compareArrays_refl _ _ IH), within_properties, Hx.
  - intros x y Hx Hy. cbv beta.
    rewrite (compareValue_lex_class x y), (compareValue_lex_class y x).
    apply lex_opposite; [apply (laws_opposite _ _ compareClasses_laws); exact I|].
    intros Hxy _. apply compareClasses_eq in Hxy.
    destruct x, y; same_class Hxy;
      try (unfold opposite; rewrite !compareValue_equation; cbn; lia).
    + rewrite !compareValue_boolean. apply (laws_opposite _ _ booleanOrder_laws); exact I.
    + rewrite !compareValue_number.
      apply (laws_opposite _ _ numberOrder_laws); [apply Hx | apply Hy].
    + rewrite !compareValue_string. apply (lc_opposite lc Hlc).
    + rewrite !compareValue_date.
      apply (laws_opposite _ _ (dateOrder_laws settings)); [apply Hx | apply Hy].
    + rewrite !compareValue_duration.
      apply (laws_opposite _ _ (durationOrder_laws settings)); [apply Hx | apply Hy].
    + rewrite !compareValue_link.
      apply (laws_opposite _ _ (compareLinks_laws lc Hlc _)); exact I.
    + rewrite !compareValue_array.
      apply (compareArrays_opposite _ _ IH); apply within_elements; assumption.
    + rewrite !compareValue_object.
      apply lex_opposite.
      * apply (compareArrays_opposite _ _ IH); apply within_keys; assumption.
      * intros Hk _. apply keys_equal in Hk. rewrite <- Hk.
        apply (compareArrays_opposite _ _ IH); apply within_properties; assumption.
  - intros x y z Hx Hy Hz. cbv beta.
    rewrite (compareValue_lex_class x y), (compareValue_lex_class y z),
      (compareValue_lex_class x z).
    apply lex_chained; [apply (laws_chained _ _ compareClasses_laws); exact I|].
    intros Hxy Hyz _. apply compareClasses_eq in Hxy, Hyz.
    destruct x, y; same_class Hxy; destruct z; same_class Hyz;
      try (unfold chained; rewrite !compareValue_equation; cbn; lia).
    + rewrite !compareValue_boolean. apply (laws_chained _ _ booleanOrder_laws); exact I.
    + rewrite !compareValue_number.
      apply (laws_chained _ _ numberOrder_laws); [apply Hx | apply Hy | apply Hz].
    + rewrite !compareValue_string. apply (lc_chained lc Hlc).
    + rewrite !compareValue_date.
      apply (laws_chained _ _ (dateOrder_laws settings)); [apply Hx | apply Hy | apply Hz].
    + rewrite !compareValue_duration.
      apply (laws_chained _ _ (durationOrder_laws settings)); [apply Hx | apply Hy | apply Hz].
    + rewrite !compareValue_link.
      apply (laws_chained _ _ (compareLinks_laws lc Hlc _)); exact I.
    + rewrite !compareValue_array.
      apply (compareArrays_chained _ _ IH); apply within_elements; assumption.
    + rewrite !compareValue_object.
      apply lex_chained.
      * apply (compareArrays_chained _ _ IH); apply within_keys; assumption.
      * intros H12 _ _. apply keys_equal in H12. rewrite <- H12.
        apply (compareArrays_chained _ _ IH); apply within_properties; assumption.
Qed.

Lemma within_zero v : ~ within settings 0 v.
Proof. intros [_ Hd]. destruct (depth_succ v) as [m Hm]. lia. Qed.

Lemma laws_within k : forall n, orderLaws (within settings k) (cmp n).
Proof.
  induction k as [|k IH]; intros n.
  - split; intros x; intros; exfalso; eapply within_zero; eassumption.
  - apply compareValue_laws_step, IH.
Qed.

End OrderLaws.

(** The code unit order is one [localeCompare] the laws hold with. *)
Lemma codeUnitCompare_localeOrder : localeOrder JS.codeUnitCompare.
Proof.
  assert (forall x y, String.compare x y = Lt <-> String_as_OT.lt x y) as Hlt
    by (intros; apply String_as_OT.cmp_lt).
  assert (forall x y, String.compare x y = Eq <-> x = y) as Heq
    by (intros; apply String_as_OT.cmp_eq).
  assert (forall x y, String.compare y x = CompOpp (String.compare x y)) as Hopp
    by (intros; apply String.compare_antisym).
  split; [split|]; unfold JS.codeUnitCompare.
  - intros x _. rewrite (proj2 (Heq x x) eq_refl). reflexivity.
  - intros x y _ _. rewrite (Hopp x y). destruct (String.compare x y); simpl; lia.
  - intros x y z _ _ _.
    destruct (String.compare x y) eqn:Hxy; try lia;
      destruct (String.compare y z) eqn:Hyz; try lia; intros _ _.
    + apply Heq in Hxy, Hyz. subst. rewrite (proj2 (Heq z z) eq_refl). lia.
    + apply Heq in Hxy. subst. rewrite Hyz. lia.
    + apply Heq in Hyz. subst. rewrite Hxy. lia.
    + apply Hlt in Hxy, Hyz.
      rewrite (proj2 (Hlt x z) (String_as_OT.lt_trans x y z Hxy Hyz)). lia.
  - intros x y H. apply Heq. destruct (String.compare x y); [reflexivity | lia | lia].
Qed.


(** Outside of the [orderable] values: two dates of one instant in two
    zones, or in two locales, and one hour against sixty minutes, are
    greater than each other, as [NaN] and a number are; and a date or a
    duration that is invalid is greater than itself. *)
Lemma compareValue_unordered_leaves (localeCompare : string -> string -> Z) :
  compareValue localeCompare (LDate Sample.epoch) (LDate Sample.epochInParis) None = 1
  /\ compareValue localeCompare (LDate Sample.epochInParis) (LDate Sample.epoch) None = 1
  /\ compareValue localeCompare (LDate Sample.epoch) (LDate Sample.epochInFrench) None = 1
  /\ compareValue localeCompare (LDate Sample.epochInFrench) (LDate Sample.epoch) None = 1
  /\ compareValue localeCompare (LDate Sample.invalidDate) (LDate Sample.invalidDate) None
     = 1
  /\ compareValue localeCompare (LDuration Sample.oneHour) (LDuration Sample.sixtyMinutes)
       None = 1
  /\ compareValue localeCompare (LDuration Sample.sixtyMinutes) (LDuration Sample.oneHour)
       None = 1
  /\ compareValue localeCompare (LDuration Sample.invalidDuration)
       (LDuration Sample.invalidDuration) None = 1.
Proof. repeat split. Qed.

(** ** Nested values *)

Lemma Literal_nested_ind (P : Literal -> Prop) :
  P LUndefined -> P LNull -> (forall b, P (LBoolean b)) -> (forall n, P (LNumber n)) ->
  (forall s, P (LString s)) -> (forall d, P (LDate d)) -> (forall d, P (LDuration d)) ->
  (forall l, P (LLink l)) ->
  (forall l, Forall P l -> P (LArray l)) ->
  (forall o, Forall (fun kv => P (snd kv)) o -> P (LObject o)) ->
  (forall n, P (LHtml n)) -> (forall f, P (LFunction f)) -> (forall d, P (LSymbol d)) ->
  forall v, P v.
Proof.
  intros Hu Hn Hb Hnum Hs Hd Hdu Hl Ha Ho Hh Hf Hsy. fix IH 1. intros [].
  - exact Hu.
  - exact Hn.
  - apply Hb.
  - apply Hnum.
  - apply Hs.
  - apply Hd.
  - apply Hdu.
  - apply Hl.
  - apply Ha. revert l. fix IHl 1. intros [|x l]; constructor; [apply IH | apply IHl].
  - apply Ho. revert o. fix IHo 1. intros [|[k x] o]; constructor; [apply IH | apply IHo].
  - apply Hh.
  - apply Hf.
  - apply Hsy.
Qed.


(** ** Maps over the leaves, and copies *)

Section LeafFacts.
Import ValueOps Shape.

Lemma mapLeaves_equation (val : Literal) (func : Literal -> Literal) :
  mapLeaves val func = mapLeaves_body (fun v => mapLeaves v func) val func.
Proof. destruct val; reflexivity. Qed.

Lemma deepCopy_equation (field : Literal) : deepCopy field = deepCopy_body deepCopy field.
Proof. destruct field; reflexivity. Qed.

Lemma setOwn_fresh (acc : list (string * Literal)) (k : string) (v : Literal) :
  ~ In k (keys acc) -> setOwn acc k v = (acc ++ [(k, v)])%list.
Proof.
  induction acc as [|[k' x] acc IH]; simpl; intros H; [reflexivity|].
  destruct (String.eqb_spec k' k) as [->|_]; [tauto|].
  rewrite IH by tauto. reflexivity.
Qed.

Lemma setOwn_all (g : Literal -> Literal) (es : list (string * Literal)) :
  forall acc,
    NoDup (keys es) -> (forall k, In k (keys es) -> ~ In k (keys acc)) ->
    fold_left (fun r kv => setOwn r (fst kv) (g (snd kv))) es acc
    = (acc ++ map (fun kv => (fst kv, g (snd kv))) es)%list.
Proof.
  induction es as [|[k v] es IH]; intros acc Hnd Hfresh; simpl.
  - symmetry. apply app_nil_r.
  - inversion Hnd as [|? ? Hk Hnd']; subst.
    rewrite setOwn_fresh by (apply Hfresh; left; reflexivity).
    rewrite IH; [rewrite <- app_assoc; reflexivity | exact Hnd' |].
    intros k' Hk'. unfold keys. rewrite map_app, in_app_iff. simpl.
    intros [Hin | [<- | []]]; [|apply Hk, list_elem_of_In, Hk'].
    apply (Hfresh k'); [right; exact Hk' | exact Hin].
Qed.

(** An assignment of a value under a key other than ["__proto__"] sets an
    own property. *)
Lemma set_plain (own : list (string * Literal)) (k : string) (v : Literal) :
  k <> "__proto__" -> set (Some own) k (Value v) = Some (setOwn own k v).
Proof.
  intros Hk. unfold set. destruct (String.eqb_spec k "__proto__"); [contradiction|].
  reflexivity.
Qed.

Lemma mapEntries_pure (self : Literal -> Returned) (g : Literal -> Literal)
  (es : list (string * Literal)) :
  Forall (fun kv => fst kv <> "__proto__" /\ self (snd kv) = Value (g (snd kv))) es ->
  forall acc,
    mapEntries (M := Id) self es (Some acc)
    = Some (fold_left (fun r kv => setOwn r (fst kv) (g (snd kv))) es acc).
Proof.
  induction 1 as [|[k v] es [Hk Hv] _ IH]; intros acc; [reflexivity|].
  simpl in Hk, Hv. cbn [mapEntries]. unfold mbind, Id_bind.
  rewrite Hv, set_plain by exact Hk. apply IH.
Qed.

Lemma mapEntries_returns (self : Literal -> Result Returned) (g : Literal -> Literal)
  (es : list (string * Literal)) :
  Forall (fun kv => fst kv <> "__proto__" /\ self (snd kv) = Return (Value (g (snd kv))))
    es ->
  forall acc,
    mapEntries self es (Some acc)
    = Return (Some (fold_left (fun r kv => setOwn r (fst kv) (g (snd kv))) es acc)).
Proof.
  induction 1 as [|[k v] es [Hk Hv] _ IH]; intros acc; [reflexivity|].
  simpl in Hk, Hv. cbn [mapEntries]. rewrite Hv. cbn [mbind Result_bind].
  rewrite set_plain by exact Hk. apply IH.
Qed.

Lemma mapElements_returns (self : Literal -> Result Returned) (g : Literal -> Literal)
  (l : list Literal) :
  Forall (fun x => self x = Return (Value (g x))) l ->
  forall acc, mapElements self l (Some acc) = Return (Some (acc ++ map g l)%list).
Proof.
  induction 1 as [|x l Hx _ IH]; intros acc; simpl.
  - rewrite app_nil_r. reflexivity.
  - rewrite Hx. simpl. rewrite IH, <- app_assoc. reflexivity.
Qed.

Lemma values_map (g : Literal -> Literal) (self : Literal -> Returned) (l : list Literal) :
  Forall (fun x => self x = Value (g x)) l -> values (map self l) = Some (map g l).
Proof.
  induction 1 as [|x l Hx _ IH]; simpl; [reflexivity|].
  rewrite Hx, IH. reflexivity.
Qed.

Lemma mapElements_throws (self : Literal -> Result Returned) (l : list Literal) :
  forall acc,
    (exists e, mapElements self l acc = Throw e)
    <-> Exists (fun x => exists e, self x = Throw e) l.
Proof.
  induction l as [|x l IH]; intros acc; simpl.
  - split; [intros [e He]; discriminate He | inversion 1].
  - destruct (self x) as [r|e] eqn:Hx; simpl.
    + rewrite IH. split; [intros H; right; exact H|].
      inversion 1 as [? ? [e He]|]; subst; [congruence | assumption].
    + split; [intros _; left; eauto | eauto].
Qed.

Lemma mapEntries_throws (self : Literal -> Result Returned) (es : list (string * Literal)) :
  forall acc,
    (exists e, mapEntries self es acc = Throw e)
    <-> Exists (fun kv => exists e, self (snd kv) = Throw e) es.
Proof.
  induction es as [|[k v] es IH]; intros acc; simpl.
  - split; [intros [e He]; discriminate He | inversion 1].
  - destruct (self v) as [r|e] eqn:Hv; simpl.
    + rewrite IH. split; [intros H; right; exact H|].
      inversion 1 as [? ? [e He]|]; subst; [simpl in He; congruence | assumption].
    + split; [intros _; left; simpl; eauto | eauto].
Qed.

Lemma bind_throws {A B : Type} (r : Result A) (k : A -> Result B) :
  (forall a, exists b, k a = Return b) ->
  (exists e, (a ← r; k a) = Throw e) <-> exists e, r = Throw e.
Proof.
  intros Hk. destruct r as [a|e]; simpl.
  - destruct (Hk a) as [b Hb]. split; intros [e He]; [|discriminate He].
    unfold mbind, Result_bind in He. rewrite Hb in He. discriminate He.
  - split; eauto.
Qed.

End LeafFacts.

Section LeafTheorems.
Import ValueOps Shape.

Lemma uniqueKeys_array (l : list Literal) : uniqueKeys (LArray l) <-> Forall uniqueKeys l.
Proof.
  simpl. induction l as [|x l IH]; simpl.
  - split; [constructor | trivial].
  - rewrite IH. split; [intros [? ?]; constructor; assumption | inversion 1; auto].
Qed.

Lemma uniqueKeys_object (o : list (string * Literal)) :
  uniqueKeys (LObject o) <-> NoDup (keys o) /\ Forall (fun kv => uniqueKeys (snd kv)) o.
Proof.
  simpl. apply and_iff_compat_l. induction o as [|x o IH]; simpl.
  - split; [constructor | trivial].
  - rewrite IH. split; [intros [? ?]; constructor; assumption | inversion 1; auto].
Qed.

Lemma noProtoKey_array (l : list Literal) : noProtoKey (LArray l) <-> Forall noProtoKey l.
Proof.
  simpl. induction l as [|x l IH]; simpl.
  - split; [constructor | trivial].
  - rewrite IH. split; [intros [? ?]; constructor; assumption | inversion 1; auto].
Qed.

Lemma noProtoKey_object (o : list (string * Literal)) :
  noProtoKey (LObject o)
  <-> Forall (fun kv => fst kv <> "__proto__" /\ noProtoKey (snd kv)) o.
Proof.
  simpl. induction o as [|x o IH]; simpl.
  - split; [constructor | trivial].
  - rewrite IH. split; [intros [? ?]; constructor; assumption | inversion 1; auto].
Qed.

Lemma holdsNull_array (l : list Literal) :
  holdsNull (LArray l) = false <-> Forall (fun x => holdsNull x = false) l.
Proof.
  simpl. induction l as [|x l IH]; simpl.
  - split; [constructor | trivial].
  - rewrite orb_false_iff, IH.
    split; [intros [? ?]; constructor; assumption | inversion 1; auto].
Qed.

Lemma holdsNull_object (o : list (string * Literal)) :
  holdsNull (LObject o) = false <-> Forall (fun kv => holdsNull (snd kv) = false) o.
Proof.
  simpl. induction o as [|x o IH]; simpl.
  - split; [constructor | trivial].
  - rewrite orb_false_iff, IH.
    split; [intros [? ?]; constructor; assumption | inversion 1; auto].
Qed.

Lemma Forall_and3 {A : Type} (P Q R : A -> Prop) (l : list A) :
  Forall (fun x => P x -> Q x -> R x) l -> Forall P l -> Forall Q l -> Forall R l.
Proof.
  induction 1; inversion 1; inversion 1; subst; constructor; auto.
Qed.

Lemma Forall_and4 {A : Type} (P Q R T : A -> Prop) (l : list A) :
  Forall (fun x => P x -> Q x -> R x -> T x) l ->
  Forall P l -> Forall Q l -> Forall R l -> Forall T l.
Proof.
  induction 1; inversion 1; inversion 1; inversion 1; subst; constructor; auto.
Qed.

(** [mapLeaves] on a value that holds no [null] and no key ["__proto__"]:
    [func] at the leaves. *)
Lemma mapLeaves_leafMap (func : Literal -> Literal) (v : Literal) :
  uniqueKeys v -> noProtoKey v -> holdsNull v = false ->
  mapLeaves v func = Return (Value (leafMap func v)).
Proof.
  induction v as [| | | | | | | |l IH|o IH| | |] using Literal_nested_ind;
    intros Hu Hp Hn; try reflexivity; try discriminate Hn.
  - apply uniqueKeys_array in Hu. apply noProtoKey_array in Hp.
    apply holdsNull_array in Hn.
    pose proof (Forall_and4 _ _ _ _ l IH Hu Hp Hn) as H. simpl.
    rewrite (mapElements_returns _ (leafMap func) l H). reflexivity.
  - apply uniqueKeys_object in Hu as [Hnd Hu]. apply noProtoKey_object in Hp.
    apply holdsNull_object in Hn.
    assert (Forall (fun kv => fst kv <> "__proto__"
                              /\ mapLeaves (snd kv) func
                                 = Return (Value (leafMap func (snd kv)))) o) as H.
    { clear Hnd. induction IH as [|kv o Hkv _ IHo]; [constructor|].
      inversion Hu; inversion Hp as [|? ? [Hk Hpk]]; inversion Hn; subst.
      constructor; [split; [exact Hk | apply Hkv; assumption]|].
      apply IHo; assumption. }
    simpl. rewrite (mapEntries_returns _ (leafMap func) o H).
    rewrite setOwn_all by (simpl; tauto). reflexivity.
Qed.

Lemma leafMap_id (v : Literal) : leafMap (fun x => x) v = v.
Proof.
  induction v as [| | | | | | | |l IH|o IH| | |] using Literal_nested_ind; try reflexivity.
  - simpl. f_equal. induction IH as [|x l Hx _ IHl]; simpl; congruence.
  - simpl. f_equal. induction IH as [|[k x] o Hx _ IHo]; simpl in *; congruence.
Qed.

Lemma leafMap_shape (func : Literal -> Literal) (v : Literal) :
  toLeaves func -> uniqueKeys v -> noProtoKey v -> holdsNull v = false ->
  uniqueKeys (leafMap func v) /\ noProtoKey (leafMap func v)
  /\ holdsNull (leafMap func v) = false.
Proof.
  intros Hf.
  assert (forall x, uniqueKeys (func x) /\ noProtoKey (func x)
                    /\ holdsNull (func x) = false) as Hleaf.
  { intros x. destruct (Hf x) as [Ha Ho].
    destruct (func x); try discriminate; repeat split. }
  induction v as [| | | | | | | |l IH|o IH| | |] using Literal_nested_ind;
    intros Hu Hp Hn; try apply Hleaf.
  - apply uniqueKeys_array in Hu. apply noProtoKey_array in Hp.
    apply holdsNull_array in Hn.
    pose proof (Forall_and4 _ _ _ _ l IH Hu Hp Hn) as H. simpl leafMap.
    rewrite uniqueKeys_array, noProtoKey_array, holdsNull_array, !Forall_map.
    repeat split; eapply Forall_impl; try exact H; simpl; tauto.
  - apply uniqueKeys_object in Hu as [Hnd Hu]. apply noProtoKey_object in Hp.
    apply holdsNull_object in Hn.
    assert (Forall (fun kv => fst kv <> "__proto__"
                              /\ uniqueKeys (leafMap func (snd kv))
                              /\ noProtoKey (leafMap func (snd kv))
                              /\ holdsNull (leafMap func (snd kv)) = false) o) as H.
    { clear Hnd. induction IH as [|kv o Hkv _ IHo]; [constructor|].
      inversion Hu; inversion Hp as [|? ? [Hk Hpk]]; inversion Hn; subst.
      constructor; [split; [exact Hk | apply Hkv; assumption]|].
      apply IHo; assumption. }
    simpl leafMap.
    rewrite uniqueKeys_object, noProtoKey_object, holdsNull_object, !Forall_map.
    unfold keys. rewrite map_map. simpl. split; [split; [exact Hnd|]|split];
      eapply Forall_impl; try exact H; simpl; tauto.
Qed.

Lemma leafMap_leafMap (f g : Literal -> Literal) (v : Literal) :
  toLeaves f -> holdsNull v = false ->
  leafMap g (leafMap f v) = leafMap (fun x => g (f x)) v.
Proof.
  intros Hf.
  assert (forall x, leafMap g (f x) = g (f x)) as Hleaf.
  { intros x. destruct (Hf x) as [Ha Ho]. destruct (f x); try discriminate; reflexivity. }
  induction v as [| | | | | | | |l IH|o IH| | |] using Literal_nested_ind;
    intros Hn; try apply Hleaf.
  - apply holdsNull_array in Hn. simpl. f_equal. rewrite map_map.
    induction IH as [|x l Hx _ IHl]; [reflexivity|].
    inversion Hn; subst. simpl. f_equal; auto.
  - apply holdsNull_object in Hn. simpl. f_equal. rewrite map_map.
    induction IH as [|[k x] o Hx _ IHo]; [reflexivity|].
    inversion Hn; subst. simpl in *. f_equal; [f_equal|]; auto.
Qed.

End LeafTheorems.

Lemma existsb_Exists_true {A : Type} (f : A -> bool) (l : list A) :
  existsb f l = true <-> Exists (fun x => f x = true) l.
Proof.
  induction l as [|x l IH]; simpl.
  - split; [discriminate | inversion 1].
  - rewrite orb_true_iff, IH. split.
    + intros [H | H]; [left | right]; assumption.
    + inversion 1; subst; auto.
Qed.

Lemma Exists_iff_Forall {A : Type} (P Q : A -> Prop) (l : list A) :
  Forall (fun x => P x <-> Q x) l -> Exists P l <-> Exists Q l.
Proof.
  induction 1 as [|x l Hx _ IH]; [split; inversion 1|].
  split; inversion 1; subst; first [left; tauto | right; tauto].
Qed.


(** X3: on a value that holds no [null] and no property of the name
    ["__proto__"] (its objects having distinct keys), [mapLeaves] returns
    the value of the same shape, lengths, keys and their order, with [func]
    applied at every leaf; with the identity for [func] it returns the
    value itself. *)
Theorem mapLeaves_keeps_shape (func : Literal -> Literal) (v : Literal)
  (Hkeys : Shape.uniqueKeys v) (Hproto : Shape.noProtoKey v)
  (Hnull : Shape.holdsNull v = false) :
  ValueOps.mapLeaves v func = Return (ValueOps.Value (Shape.leafMap func v))
  /\ ValueOps.mapLeaves v (fun x => x) = Return (ValueOps.Value v).
Proof.
  split; [apply mapLeaves_leafMap; assumption|].
  rewrite mapLeaves_leafMap by assumption. rewrite leafMap_id. reflexivity.
Qed.

Lemma mapLeaves_keeps_shape_witness :
  Shape.uniqueKeys (LObject [("a", LArray [LNumber 1%float; LString "x"])])
  /\ Shape.noProtoKey (LObject [("a", LArray [LNumber 1%float; LString "x"])])
  /\ Shape.holdsNull (LObject [("a", LArray [LNumber 1%float; LString "x"])]) = false
  /\ ValueOps.mapLeaves (LObject [("a", LArray [LNumber 1%float; LString "x"])])
       (fun _ => LBoolean true)
     = Return (ValueOps.Value (LObject [("a", LArray [LBoolean true; LBoolean true])])).
Proof.
  assert (Shape.uniqueKeys (LObject [("a", LArray [LNumber 1%float; LString "x"])])) as H.
  { simpl. repeat split. apply NoDup_cons. split; [set_solver | apply NoDup_nil; exact I]. }
  assert (Shape.noProtoKey (LObject [("a", LArray [LNumber 1%float; LString "x"])])) as Hp
    by (simpl; repeat split; discriminate).
  split; [exact H|]. split; [exact Hp|]. split; [reflexivity|].
  exact (proj1 (mapLeaves_keeps_shape (fun _ => LBoolean true)
                  (LObject [("a", LArray [LNumber 1%float; LString "x"])]) H Hp eq_refl)).
Defined.

(** X4: two maps in a row are one map with the functions composed: on a
    value that holds no [null] and no property of the name ["__proto__"],
    and with a first function that returns leaves (no array, no plain
    object, no [null]), the first map returns a value, and the second map
    of that value returns what the map with the composed function returns
    of the value given. *)
Theorem mapLeaves_fusion (f g : Literal -> Literal) (v : Literal)
  (Hf : Shape.toLeaves f)
  (Hkeys : Shape.uniqueKeys v) (Hproto : Shape.noProtoKey v)
  (Hnull : Shape.holdsNull v = false) :
  exists r,
    ValueOps.mapLeaves v f = Return (ValueOps.Value r)
    /\ ValueOps.mapLeaves r g = ValueOps.mapLeaves v (fun x => g (f x)).
Proof.
  exists (Shape.leafMap f v). split; [apply mapLeaves_leafMap; assumption|].
  destruct (leafMap_shape f v Hf Hkeys Hproto Hnull) as (Hk' & Hp' & Hn').
  rewrite !mapLeaves_leafMap by assumption.
  rewrite leafMap_leafMap by assumption. reflexivity.
Qed.

Lemma mapLeaves_fusion_witness :
  Shape.toLeaves (fun _ => LString "leaf")
  /\ Shape.uniqueKeys (LObject [("a", LArray [LNumber 1%float; LArray [LBoolean true]])])
  /\ Shape.noProtoKey (LObject [("a", LArray [LNumber 1%float; LArray [LBoolean true]])])
  /\ exists r,
       ValueOps.mapLeaves (LObject [("a", LArray [LNumber 1%float; LArray [LBoolean true]])])
         (fun _ => LString "leaf")
       = Return (ValueOps.Value r)
       /\ ValueOps.mapLeaves r (fun x => LArray [x])
          = ValueOps.mapLeaves
              (LObject [("a", LArray [LNumber 1%float; LArray [LBoolean true]])])
              (fun x => LArray [LString "leaf"]).
Proof.
  assert (Shape.toLeaves (fun _ => LString "leaf")) as Hf by (intros x; split; reflexivity).
  assert (Shape.uniqueKeys
            (LObject [("a", LArray [LNumber 1%float; LArray [LBoolean true]])])) as H.
  { simpl. repeat split. apply NoDup_cons. split; [set_solver | apply NoDup_nil; exact I]. }
  assert (Shape.noProtoKey
            (LObject [("a", LArray [LNumber 1%float; LArray [LBoolean true]])])) as Hp
    by (simpl; repeat split; discriminate).
  split; [exact Hf|]. split; [exact H|]. split; [exact Hp|].
  exact (mapLeaves_fusion (fun _ => LString "leaf") (fun x => LArray [x])
           (LObject [("a", LArray [LNumber 1%float; LArray [LBoolean true]])])
           Hf H Hp eq_refl).
Defined.

(** X5: [deepCopy] returns a value equal to the one it is given, when no
    object in it has a property of the name ["__proto__"] (and its objects
    have distinct keys); [null] and [undefined] are returned as they are. *)
Theorem deepCopy_equal (v : Literal)
  (Hkeys : Shape.uniqueKeys v) (Hproto : Shape.noProtoKey v) :
  ValueOps.deepCopy v = ValueOps.Value v.
Proof.
  induction v as [| | | | | | | |l IH|o IH| | |] using Literal_nested_ind;
    try reflexivity.
  - apply uniqueKeys_array in Hkeys. apply noProtoKey_array in Hproto. simpl.
    pose proof (Forall_and3 _ _ _ l IH Hkeys Hproto) as H.
    rewrite (values_map (fun x => x) _ l H), map_id. reflexivity.
  - apply uniqueKeys_object in Hkeys as [Hnd Hu]. apply noProtoKey_object in Hproto.
    assert (Forall (fun kv => fst kv <> "__proto__"
                              /\ ValueOps.deepCopy (snd kv) = ValueOps.Value (snd kv)) o)
      as H.
    { clear Hnd. induction IH as [|kv o Hkv _ IHo]; [constructor|].
      inversion Hu; inversion Hproto as [|? ? [Hk Hpk]]; subst.
      constructor; [split; [exact Hk | apply Hkv; assumption]|].
      apply IHo; assumption. }
    simpl. rewrite (mapEntries_pure _ (fun x => x) o H).
    rewrite (setOwn_all (fun x => x)) by (simpl; tauto). simpl.
    f_equal. f_equal. clear. induction o as [|[k x] o IHo]; simpl; congruence.
Qed.

Lemma deepCopy_equal_witness :
  Shape.uniqueKeys (LObject [("a", LArray [LNull; LString "x"]); ("b", LObject [])])
  /\ Shape.noProtoKey (LObject [("a", LArray [LNull; LString "x"]); ("b", LObject [])])
  /\ ValueOps.deepCopy (LObject [("a", LArray [LNull; LString "x"]); ("b", LObject [])])
     = ValueOps.Value (LObject [("a", LArray [LNull; LString "x"]); ("b", LObject [])]).
Proof.
  assert (Shape.uniqueKeys
            (LObject [("a", LArray [LNull; LString "x"]); ("b", LObject [])])) as H.
  { simpl. repeat split; try apply NoDup_nil; try exact I.
    apply NoDup_cons. split; [set_solver|].
    apply NoDup_cons. split; [set_solver | apply NoDup_nil; exact I]. }
  assert (Shape.noProtoKey
            (LObject [("a", LArray [LNull; LString "x"]); ("b", LObject [])])) as Hp
    by (simpl; repeat split; discriminate).
  split; [exact H|]. split; [exact Hp|].
  exact (deepCopy_equal _ H Hp).
Defined.

(** A property of the name ["__proto__"] is not copied and not mapped: the
    assignment runs the setter of [Object.prototype].  Given a number the
    setter does nothing and the property is lost; given an array it makes
    the array the prototype of the result. *)
Lemma deepCopy_loses_proto_key :
  Shape.uniqueKeys (LObject [("__proto__", LNumber 1%float); ("a", LNumber 2%float)])
  /\ ValueOps.deepCopy (LObject [("__proto__", LNumber 1%float); ("a", LNumber 2%float)])
     = ValueOps.Value (LObject [("a", LNumber 2%float)])
  /\ ValueOps.mapLeaves (LObject [("__proto__", LNumber 1%float); ("a", LNumber 2%float)])
       (fun x => x)
     = Return (ValueOps.Value (LObject [("a", LNumber 2%float)]))
  /\ ValueOps.deepCopy (LObject [("__proto__", LArray []); ("a", LNumber 2%float)])
     = ValueOps.Rebased.
Proof.
  split; [|repeat split].
  simpl. repeat split.
  apply NoDup_cons. split; [set_solver|].
  apply NoDup_cons. split; [set_solver | apply NoDup_nil; exact I].
Qed.

(** ** Truthiness *)

Lemma float_ltb_not_eqb (x y : float) : PrimFloat.ltb x y = true -> PrimFloat.eqb x y = false.
Proof.
  rewrite FloatAxioms.ltb_spec, FloatAxioms.eqb_spec. unfold SFltb, SFeqb.
  destruct (SFcompare (Prim2SF x) (Prim2SF y)) as [[]|]; intros H;
    first [discriminate H | reflexivity].
Qed.

(** X6: a number, a boolean, an array or an object is truthy exactly when
    [equal] of the API tells it from the zero of its kind: 0, [false], the
    empty array, the empty object.  [NaN], which equals no number, is
    truthy. *)
Theorem isTruthy_differs_from_zero (localeCompare : string -> string -> Z) :
  (forall n, ValueOps.isTruthy (LNumber n)
             = negb (DataviewApi.equal localeCompare (LNumber n) (LNumber 0%float)))
  /\ (forall b, ValueOps.isTruthy (LBoolean b)
                = negb (DataviewApi.equal localeCompare (LBoolean b) (LBoolean false)))
  /\ (forall l, ValueOps.isTruthy (LArray l)
                = negb (DataviewApi.equal localeCompare (LArray l) (LArray [])))
  /\ (forall o, ValueOps.isTruthy (LObject o)
                = negb (DataviewApi.equal localeCompare (LObject o) (LObject [])))
  /\ ValueOps.isTruthy (LNumber nan) = true.
Proof.
  unfold DataviewApi.equal, DataviewApi.compare. repeat split.
  - intros n. rewrite compareValue_number. unfold numberOrder. cbn.
    destruct (PrimFloat.ltb n 0) eqn:Hlt.
    + rewrite (float_ltb_not_eqb n 0 Hlt). reflexivity.
    + destruct (PrimFloat.eqb n 0); reflexivity.
  - intros []; reflexivity.
  - intros l. rewrite compareValue_array, compareArrays_nil_r.
    destruct l; reflexivity.
  - intros o. rewrite compareValue_object. simpl JS.sort at 2. simpl map at 2.
    rewrite compareArrays_nil_r, length_map, sort_length. unfold keys.
    rewrite length_map. destruct o as [|kv o]; [reflexivity|].
    cbn. unfold lex. simpl. reflexivity.
Qed.

(** ** Equality under the comparator *)

Lemma compareValue_laws_upto (lc : string -> string -> Z) (settings : Luxon.Settings) (k : nat)
  (n : option (string -> string)) :
  localeOrder lc -> orderLaws (within settings k) (fun a b => compareValue lc a b n).
Proof. intros Hlc. apply laws_within, Hlc. Qed.

(** X7: with a [localeCompare] that is an order on strings, [equal] of the
    API is an equivalence on the values that hold no [NaN], whose dates are
    valid and have one zone and one locale, and whose durations are valid,
    have that locale and are canonical: every such value equals itself,
    [equal(a, b)] is [equal(b, a)], and two values equal to a third are
    equal. *)
Theorem equal_is_equivalence (lc : string -> string -> Z) (settings : Luxon.Settings)
  (a b c : Literal)
  (Hlc : localeOrder lc)
  (Ha : orderable settings a) (Hb : orderable settings b) (Hc : orderable settings c) :
  DataviewApi.equal lc a a = true
  /\ DataviewApi.equal lc a b = DataviewApi.equal lc b a
  /\ (DataviewApi.equal lc a b = true -> DataviewApi.equal lc b c = true ->
      DataviewApi.equal lc a c = true).
Proof.
  pose proof (compareValue_laws_upto lc settings
                (Nat.max (depth a) (Nat.max (depth b) (depth c))) None Hlc) as L.
  assert (within settings (Nat.max (depth a) (Nat.max (depth b) (depth c))) a) as Wa
    by (split; [exact Ha | lia]).
  assert (within settings (Nat.max (depth a) (Nat.max (depth b) (depth c))) b) as Wb
    by (split; [exact Hb | lia]).
  assert (within settings (Nat.max (depth a) (Nat.max (depth b) (depth c))) c) as Wc
    by (split; [exact Hc | lia]).
  unfold DataviewApi.equal, DataviewApi.compare.
  pose proof (laws_refl _ _ L a Wa) as Haa.
  pose proof (laws_antisym _ _ L a b Wa Wb) as Hab.
  pose proof (laws_antisym _ _ L b a Wb Wa) as Hba.
  pose proof (laws_antisym _ _ L a c Wa Wc) as Hac.
  pose proof (laws_antisym _ _ L c a Wc Wa) as Hca.
  pose proof (laws_antisym _ _ L b c Wb Wc) as Hbc.
  pose proof (laws_antisym _ _ L c b Wc Wb) as Hcb.
  pose proof (laws_trans _ _ L a b c Wa Wb Wc) as Tabc.
  pose proof (laws_trans _ _ L c b a Wc Wb Wa) as Tcba.
  simpl in *. split; [|split].
  - rewrite Haa. reflexivity.
  - destruct (Z.eqb_spec (compareValue lc a b None) 0) as [E|E];
      destruct (Z.eqb_spec (compareValue lc b a None) 0) as [E'|E'];
      try reflexivity; exfalso; lia.
  - rewrite !Z.eqb_eq. intros E1 E2. lia.
Qed.

Lemma equal_is_equivalence_witness :
  localeOrder JS.codeUnitCompare
  /\ orderable Sample.settings
       (LArray [LDate Sample.epoch; LDuration Sample.ninetyMinutes; LString "a"])
  /\ DataviewApi.equal JS.codeUnitCompare
       (LArray [LDate Sample.epoch; LDuration Sample.ninetyMinutes; LString "a"])
       (LArray [LDate Sample.epoch; LDuration Sample.ninetyMinutes; LString "a"]) = true.
Proof.
  assert (orderable Sample.settings
            (LArray [LDate Sample.epoch; LDuration Sample.ninetyMinutes; LString "a"])) as H
    by (simpl; unfold orderableDate, orderableDuration, canonicalDuration; simpl;
        repeat split; lia).
  split; [exact codeUnitCompare_localeOrder|]. split; [exact H|].
  exact (proj1 (equal_is_equivalence JS.codeUnitCompare Sample.settings _ _ _
                  codeUnitCompare_localeOrder H H H)).
Defined.

(** ** What a result of zero tells, and arrays that extend one another *)

Lemma Class_eq_dec (c1 c2 : Class) : {c1 = c2} + {c1 <> c2}.
Proof. repeat decide equality. Qed.

Lemma typeOf_classOf (v : Literal) :
  typeOf v
  = match classOf v with
    | CNull => Some TNull
    | CUntagged => None
    | CTagged t => Some t
    end.
Proof. destruct v; reflexivity. Qed.

(** X8: with a [localeCompare] that is zero on equal strings only, two
    values that compare as 0 have the same type: [typeOf] returns the same
    tag for both, or no tag for both. *)
Theorem compareValue_zero_same_type (lc : string -> string -> Z) (a b : Literal)
  (n : option (string -> string))
  (Hlc : localeOrder lc) (Hzero : compareValue lc a b n = 0) :
  typeOf a = typeOf b.
Proof.
  rewrite !typeOf_classOf.
  destruct (Class_eq_dec (classOf a) (classOf b)) as [-> | Hne]; [reflexivity|].
  rewrite (compareValue_classes lc a b n Hne) in Hzero.
  apply (compareClasses_eq lc Hlc) in Hzero. contradiction.
Qed.

Lemma compareValue_zero_same_type_witness :
  localeOrder JS.codeUnitCompare
  /\ compareValue JS.codeUnitCompare (LArray [LString "a"]) (LArray [LString "a"]) None = 0
  /\ typeOf (LArray [LString "a"]) = typeOf (LArray [LString "a"]).
Proof.
  split; [exact codeUnitCompare_localeOrder|]. split; [reflexivity|].
  exact (compareValue_zero_same_type JS.codeUnitCompare (LArray [LString "a"])
           (LArray [LString "a"]) None codeUnitCompare_localeOrder eq_refl).
Defined.



(** ** Objects: the order of the properties *)

Lemma leb_le (a b : string) : String.leb a b = true <-> String_as_OT.lt a b \/ a = b.
Proof.
  assert (String.compare a b = Lt <-> String_as_OT.lt a b) as Hlt
    by apply String_as_OT.cmp_lt.
  assert (String.compare a b = Eq <-> a = b) as Heq by apply String_as_OT.cmp_eq.
  unfold String.leb. destruct (String.compare a b).
  - split; [intros _; right; apply Heq; reflexivity | reflexivity].
  - split; [intros _; left; apply Hlt; reflexivity | reflexivity].
  - split; [intros H; discriminate H|].
    intros [H|H]; [apply Hlt in H | apply Heq in H]; discriminate H.
Qed.

Lemma leb_trans (a b c : string) :
  String.leb a b = true -> String.leb b c = true -> String.leb a c = true.
Proof.
  rewrite !leb_le. intros [H1 | ->] [H2 | ->]; auto.
  left. eapply String_as_OT.lt_trans; eassumption.
Qed.

Lemma leb_false (a b : string) : String.leb a b = false -> String.leb b a = true.
Proof. intros H. destruct (String.leb_total a b) as [E|E]; congruence. Qed.

Lemma insertSorted_cons (k x : string) (l : list string) :
  JS.insertSorted k (x :: l)
  = if String.leb k x then k :: x :: l else x :: JS.insertSorted k l.
Proof. reflexivity. Qed.

Lemma insertSorted_comm (x y : string) (l : list string) :
  JS.insertSorted x (JS.insertSorted y l) = JS.insertSorted y (JS.insertSorted x l).
Proof.
  induction l as [|z l IH].
  - simpl. destruct (String.leb x y) eqn:Exy, (String.leb y x) eqn:Eyx; try reflexivity.
    + rewrite (String.leb_antisym x y Exy Eyx). reflexivity.
    + apply leb_false in Exy. congruence.
  - rewrite !(insertSorted_cons _ z).
    destruct (String.leb y z) eqn:Eyz, (String.leb x z) eqn:Exz;
      rewrite !insertSorted_cons, ?Eyz, ?Exz.
    + destruct (String.leb x y) eqn:Exy, (String.leb y x) eqn:Eyx;
        rewrite ?Eyz, ?Exz; try reflexivity.
      * rewrite (String.leb_antisym x y Exy Eyx). reflexivity.
      * apply leb_false in Exy. congruence.
    + destruct (String.leb x y) eqn:Exy; [|reflexivity].
      rewrite (leb_trans x y z Exy Eyz) in Exz. discriminate Exz.
    + destruct (String.leb y x) eqn:Eyx; [|reflexivity].
      rewrite (leb_trans y x z Eyx Exz) in Eyz. discriminate Eyz.
    + rewrite IH. reflexivity.
Qed.

Lemma sort_Permutation (l1 l2 : list string) :
  Permutation l1 l2 -> JS.sort l1 = JS.sort l2.
Proof.
  induction 1 as [|x l1 l2 _ IH|x y l|l1 l2 l3 _ IH1 _ IH2]; simpl.
  - reflexivity.
  - rewrite IH. reflexivity.
  - apply insertSorted_comm.
  - congruence.
Qed.

Lemma get_In (o : list (string * Literal)) (k : string) (v : Literal) :
  NoDup (keys o) -> In (k, v) o -> get o k = v.
Proof.
  induction o as [|[k' v'] o IH]; intros Hnd Hin; [destruct Hin|].
  simpl in Hnd. apply NoDup_cons in Hnd. destruct Hnd as [Hk Hnd].
  simpl. destruct Hin as [E | Hin].
  - injection E as -> ->. rewrite String.eqb_refl. reflexivity.
  - destruct (String.eqb_spec k' k) as [->|_]; [|apply IH; assumption].
    exfalso. apply Hk. apply list_elem_of_In. unfold keys.
    apply in_map_iff. exists (k, v). auto.
Qed.

Lemma get_not_In (o : list (string * Literal)) (k : string) :
  ~ In k (keys o) -> get o k = LUndefined.
Proof.
  induction o as [|[k' v'] o IH]; intros Hk; [reflexivity|].
  simpl. destruct (String.eqb_spec k' k) as [->|_].
  - exfalso. apply Hk. left. reflexivity.
  - apply IH. intros H. apply Hk. right. exact H.
Qed.

Lemma get_Permutation (o1 o2 : list (string * Literal)) (k : string) :
  NoDup (keys o1) -> Permutation o1 o2 -> get o1 k = get o2 k.
Proof.
  intros Hnd Hperm.
  assert (NoDup (keys o2)) as Hnd2.
  { unfold keys in *. rewrite <- (Permutation_map fst Hperm). exact Hnd. }
  destruct (in_dec String.string_dec k (keys o1)) as [Hin | Hout].
  - unfold keys in Hin. apply in_map_iff in Hin. destruct Hin as ([k' v] & Hk & Hin).
    simpl in Hk. subst k'. rewrite (get_In o1 k v Hnd Hin). symmetry.
    apply get_In; [exact Hnd2|]. eapply Permutation_in; eassumption.
  - rewrite (get_not_In o1 k Hout). symmetry. apply get_not_In.
    intros H. apply Hout. unfold keys in *.
    eapply Permutation_in; [|exact H]. apply Permutation_sym, Permutation_map, Hperm.
Qed.

(** X10: the order in which an object lists its properties does not
    matter to the comparator: two objects with the same properties, listed
    in two orders, compare alike with every value, on either side. *)
Theorem compareValue_ignores_property_order (lc : string -> string -> Z)
  (o1 o2 : list (string * Literal)) (x : Literal) (n : option (string -> string))
  (Hkeys : NoDup (keys o1)) (Hperm : Permutation o1 o2) :
  compareValue lc (LObject o1) x n = compareValue lc (LObject o2) x n
  /\ compareValue lc x (LObject o1) n = compareValue lc x (LObject o2) n.
Proof.
  assert (JS.sort (keys o1) = JS.sort (keys o2)) as Hsort
    by (apply sort_Permutation, Permutation_map, Hperm).
  assert (forall ks, map (get o1) ks = map (get o2) ks) as Hget
    by (intros ks; apply map_ext; intros k; apply get_Permutation; assumption).
  destruct x as [| | | | | | | | |o| | |];
    try (split; rewrite !(compareValue_equation lc); reflexivity).
  rewrite !compareValue_object, Hsort, !Hget. split; reflexivity.
Qed.

Lemma compareValue_ignores_property_order_witness :
  compareValue JS.codeUnitCompare
    (LObject [("key", LNumber 1%float); ("rows", LArray [])])
    (LObject [("key", LNumber 2%float); ("rows", LArray [])]) None
  = compareValue JS.codeUnitCompare
      (LObject [("rows", LArray []); ("key", LNumber 1%float)])
      (LObject [("key", LNumber 2%float); ("rows", LArray [])]) None.
Proof.
  refine (proj1 (compareValue_ignores_property_order JS.codeUnitCompare
                   [("key", LNumber 1%float); ("rows", LArray [])]
                   [("rows", LArray []); ("key", LNumber 1%float)]
                   (LObject [("key", LNumber 2%float); ("rows", LArray [])]) None _ _)).
  - apply NoDup_cons. split; [set_solver|]. apply NoDup_cons. split; [set_solver|].
    apply NoDup_nil. exact I.
  - apply perm_swap.
Defined.

(** ** The link normalizer *)

(** X11: the link normalizer is used on two links compared directly and
    nowhere else: on any other pair of values, arrays and objects that hold
    links included, [compareValue] returns what it returns without a
    normalizer. *)
Theorem compareValue_normalizer_top_links_only (lc : string -> string -> Z)
  (a b : Literal) (n : option (string -> string))
  (Hlinks : isLink a && isLink b = false) :
  compareValue lc a b n = compareValue lc a b None.
Proof.
  rewrite !(compareValue_equation lc a b).
  destruct a, b; try reflexivity. discriminate Hlinks.
Qed.

Lemma compareValue_normalizer_top_links_only_witness :
  compareValue JS.codeUnitCompare
    (LArray [LLink (Link.file "A.md" None None)])
    (LArray [LLink (Link.file "a.md" None None)]) (Some (fun _ => ""))
  = compareValue JS.codeUnitCompare
      (LArray [LLink (Link.file "A.md" None None)])
      (LArray [LLink (Link.file "a.md" None None)]) None.
Proof.
  apply (compareValue_normalizer_top_links_only JS.codeUnitCompare). reflexivity.
Defined.

(** ** Links under the comparator *)

Lemma Link_equals_fields (a b : Link.Link) :
  Link.equals a (Some b) = true
  <-> Link.path a = Link.path b /\ Link.type a = Link.type b
      /\ Link.subpath a = Link.subpath b.
Proof.
  unfold Link.equals. rewrite !andb_true_iff, String.eqb_eq, Link_typeEq_eq, Link_looseEqOpt_eq.
  tauto.
Qed.

(** X12: links that [equals] holds equal compare as 0, under any link
    normalizer; and without a normalizer two links that compare as 0 are
    equal, unless one of them has the empty subpath and the other has
    another subpath that counts as none. *)
Theorem compareValue_links_agrees_with_equals (lc : string -> string -> Z)
  (a b : Link.Link) (Hlc : localeOrder lc) :
  (Link.equals a (Some b) = true ->
   forall n, compareValue lc (LLink a) (LLink b) n = 0)
  /\ (compareValue lc (LLink a) (LLink b) None = 0 ->
      Link.equals a (Some b) = true
      \/ (truthy (Link.subpath a) = false /\ truthy (Link.subpath b) = false
          /\ Link.subpath a <> Link.subpath b)).
Proof.
  pose proof (laws_refl _ _ (locale_laws lc Hlc)) as Hrefl.
  pose proof (locale_eq lc Hlc) as Heq.
  split.
  - intros H n. apply Link_equals_fields in H. destruct H as (Hp & Ht & Hs).
    rewrite compareValue_link. unfold compareLinks. rewrite Hp, Ht, Hs.
    rewrite !Hrefl by exact I. simpl.
    destruct (truthy (Link.subpath b)); reflexivity.
  - rewrite compareValue_link. unfold compareLinks.
    remember (Link.equals a (Some b)) as e eqn:He. simpl.
    destruct (Z.eqb_spec (lc (Link.path a) (Link.path b)) 0) as [Ep|Ep];
      simpl; [|intros H; contradiction].
    destruct (Z.eqb_spec (lc (Link.typeName (Link.type a)) (Link.typeName (Link.type b))) 0)
      as [Et|Et]; simpl; [|intros H; contradiction].
    apply Heq in Ep. apply Heq in Et.
    assert (Link.type a = Link.type b) as Et'
      by (destruct (Link.type a), (Link.type b); try reflexivity; discriminate Et).
    assert (Link.subpath a = Link.subpath b -> e = true) as Hfin
      by (intros Es; rewrite He; apply Link_equals_fields; auto).
    destruct (Link.subpath a) as [sa|] eqn:Ea, (Link.subpath b) as [sb|] eqn:Eb; simpl.
    + destruct (String.eqb_spec sa "") as [->|Ha], (String.eqb_spec sb "") as [->|Hb];
        simpl; intros H; try discriminate H.
      * left. apply Hfin. congruence.
      * apply Heq in H. subst sb. left. apply Hfin. congruence.
    + destruct (String.eqb_spec sa "") as [->|Ha]; simpl; intros H; try discriminate H.
      right. repeat split. discriminate.
    + destruct (String.eqb_spec sb "") as [->|Hb]; simpl; intros H; try discriminate H.
      right. repeat split. discriminate.
    + intros _. left. apply Hfin. congruence.
Qed.

Lemma compareValue_links_agrees_with_equals_witness :
  localeOrder JS.codeUnitCompare
  /\ Link.equals (Link.file "a.md" None (Some "A")) (Some (Link.file "a.md" (Some true) None))
     = true
  /\ compareValue JS.codeUnitCompare (LLink (Link.file "a.md" None (Some "A")))
       (LLink (Link.file "a.md" (Some true) None)) None = 0.
Proof.
  split; [exact codeUnitCompare_localeOrder|]. split; [reflexivity|].
  exact (proj1 (compareValue_links_agrees_with_equals JS.codeUnitCompare
                  (Link.file "a.md" None (Some "A")) (Link.file "a.md" (Some true) None)
                  codeUnitCompare_localeOrder) eq_refl None).
Defined.

(** ** Links: what the derivations keep *)

Lemma Link_equals_refl (a : Link.Link) : Link.equals a (Some a) = true.
Proof. apply Link_equals_fields. auto. Qed.

(** X13: [equals] looks at the path, the type and the subpath only, so it is
    an equivalence on links, and a link stays equal to itself when its
    display text is replaced or when it is made an embed; a link with
    another path is equal to it only if the path is the same, and its file
    link only if it is a file link. *)
Theorem Link_equals_under_derivations (a b c : Link.Link) (d : option string)
  (p : string) :
  Link.equals a (Some a) = true
  /\ Link.equals a (Some b) = Link.equals b (Some a)
  /\ (Link.equals a (Some b) = true -> Link.equals b (Some c) = true ->
      Link.equals a (Some c) = true)
  /\ Link.equals (Link.withDisplay a d) (Some b) = Link.equals a (Some b)
  /\ Link.equals (Link.toEmbed a) (Some b) = Link.equals a (Some b)
  /\ (Link.equals (Link.withPath a p) (Some a) = true <-> p = Link.path a)
  /\ (Link.equals (Link.toFile a) (Some a) = true
      <-> Link.type a = Link.file_t /\ Link.subpath a = None).
Proof.
  split; [apply Link_equals_refl|].
  split.
  { destruct (Link.equals a (Some b)) eqn:E1, (Link.equals b (Some a)) eqn:E2;
      try reflexivity.
    - apply Link_equals_fields in E1. destruct E1 as (? & ? & ?).
      assert (Link.equals b (Some a) = true) as E by (apply Link_equals_fields; auto).
      congruence.
    - apply Link_equals_fields in E2. destruct E2 as (? & ? & ?).
      assert (Link.equals a (Some b) = true) as E by (apply Link_equals_fields; auto).
      congruence. }
  split.
  { rewrite !Link_equals_fields. intros (-> & -> & ->) (-> & -> & ->). auto. }
  split; [reflexivity|].
  split; [unfold Link.toEmbed; destruct (Link.embed a); reflexivity|].
  split.
  - rewrite Link_equals_fields. simpl. tauto.
  - rewrite Link_equals_fields. simpl. split.
    + intros (_ & Ht & Hs). auto.
    + intros [Ht Hs]. auto.
Qed.

(** X14: how the derivations compose: making an embed twice is making it
    once, and it commutes with taking the file link; the file link forgets
    a header set before; of two headers, two display texts or two paths set
    in a row, the last one stays. *)
Theorem Link_derivations_compose (normalizeHeaderForLink : string -> string)
  (a : Link.Link) (h1 h2 p1 p2 : string) (d1 d2 : option string) :
  Link.toEmbed (Link.toEmbed a) = Link.toEmbed a
  /\ Link.embed (Link.toEmbed a) = true
  /\ Link.toFile (Link.toEmbed a) = Link.toEmbed (Link.toFile a)
  /\ Link.toFile (Link.toFile a) = Link.toFile a
  /\ Link.toFile (Link.withHeader normalizeHeaderForLink a h1) = Link.toFile a
  /\ Link.withHeader normalizeHeaderForLink
       (Link.withHeader normalizeHeaderForLink a h1) h2
     = Link.withHeader normalizeHeaderForLink a h2
  /\ Link.withDisplay (Link.withDisplay a d1) d2 = Link.withDisplay a d2
  /\ Link.withPath (Link.withPath a p1) p2 = Link.withPath a p2.
Proof.
  destruct a as [p d s [] t]; repeat split.
Qed.

(** ** Links as markdown *)

Lemma append_assoc (a b c : string) : (a +:+ b) +:+ c = a +:+ (b +:+ c).
Proof.
  induction a as [|x a IH]; [reflexivity|].
  change (String x ((a +:+ b) +:+ c) = String x (a +:+ (b +:+ c))).
  rewrite IH. reflexivity.
Qed.

(** X15: the markdown of a link: an embed is written as the link behind an
    exclamation mark; the empty display text counts as none, so the title
    of the file is shown; a file link with a display text [d] is
    [[[path|d]]], and without one [[[path|title]]]. *)
Theorem Link_markdown_shape (getFileTitle : string -> string) (a : Link.Link)
  (p d : string) :
  Link.markdown getFileTitle (Link.toEmbed a)
  = (if Link.embed a then "" else "!") +:+ Link.markdown getFileTitle a
  /\ Link.markdown getFileTitle (Link.withDisplay a (Some ""))
     = Link.markdown getFileTitle (Link.withDisplay a None)
  /\ Link.markdown getFileTitle (Link.file p None None)
     = "[[" +:+ p +:+ "|" +:+ getFileTitle p +:+ "]]"
  /\ (d <> "" ->
      Link.markdown getFileTitle (Link.file p None (Some d))
      = "[[" +:+ p +:+ "|" +:+ d +:+ "]]").
Proof.
  split; [|split; [|split]].
  - destruct a as [pa da sa [] ta]; [reflexivity|].
    unfold Link.toEmbed, Link.markdown. simpl.
    destruct ta, (Link.shown da); reflexivity.
  - reflexivity.
  - unfold Link.markdown. simpl. rewrite !append_assoc. reflexivity.
  - intros Hd. unfold Link.markdown, Link.shown. simpl.
    destruct (String.eqb_spec d ""); [contradiction|].
    rewrite !append_assoc. reflexivity.
Qed.

(** ** Groupings: what counts as a group *)

(** X16: [isElementGroup] returns [true] exactly on the plain objects that
    have the two properties [key] and [rows] and no other, in either
    order; and [isGrouping] returns [true] exactly on the arrays whose
    elements are all such objects, the empty array among them. *)
Theorem isGrouping_true_iff_all_groups :
  (forall entry : Literal,
     Groupings.isElementGroup entry = Return true
     <-> exists key rows,
           entry = LObject [("key", key); ("rows", rows)]
           \/ entry = LObject [("rows", rows); ("key", key)])
  /\ (forall seq : list Literal,
        Groupings.isGrouping seq = Return true
        <-> Forall (fun x => Groupings.isElementGroup x = Return true) seq).
Proof.
  split.
  - intros entry. split.
    + destruct entry as [| | | | | | | | |o| | |]; try (intros H; discriminate H).
      destruct o as [|[k1 v1] [|[k2 v2] [|kv o]]]; try (intros H; discriminate H).
      assert (Groupings.isElementGroup (LObject [(k1, v1); (k2, v2)])
              = if String.eqb "key" k1 || (String.eqb "key" k2 || false)
                then Return (String.eqb "rows" k1 || (String.eqb "rows" k2 || false))
                else Return false) as -> by reflexivity.
      destruct (String.eqb_spec "key" k1) as [E1|N1];
        destruct (String.eqb_spec "key" k2) as [E2|N2];
        destruct (String.eqb_spec "rows" k1) as [E3|N3];
        destruct (String.eqb_spec "rows" k2) as [E4|N4];
        intros H; cbv in H; try discriminate H; try congruence; subst; eauto.
    + intros (key & rows & [-> | ->]); reflexivity.
  - intros seq. induction seq as [|x seq IH]; simpl.
    + split; [constructor | reflexivity].
    + destruct (isElementGroup_cases x) as [-> | [b Hb]].
      * split; [intros H; discriminate H | inversion 1 as [|? ? Hx]; discriminate Hx].
      * rewrite Hb. simpl. destruct b; simpl.
        -- rewrite IH. split; [intros H; constructor; assumption | inversion 1; assumption].
        -- split; [intros H; discriminate H | inversion 1 as [|? ? Hx]; congruence].
Qed.

(** ** Task de-duplication: identities, descendants and what is kept *)

Lemma append_nil_l (s : string) : "" +:+ s = s.
Proof. reflexivity. Qed.
Lemma append_String (c : ascii) (s t : string) : String c s +:+ t = String c (s +:+ t).
Proof. reflexivity. Qed.

Lemma containsChar_String (c d : ascii) (s : string) :
  JS.containsChar c (String d s) = Ascii.eqb c d || JS.containsChar c s.
Proof. reflexivity. Qed.

Lemma containsChar_append (c : ascii) (s t : string) :
  JS.containsChar c (s +:+ t) = JS.containsChar c s || JS.containsChar c t.
Proof.
  induction s as [|d s IH]; [reflexivity|].
  rewrite append_String, !containsChar_String, IH. apply orb_assoc.
Qed.

Lemma pretty_N_char_no_colon (x : N) : Ascii.eqb ":" (pretty_N_char x) = false.
Proof. unfold pretty_N_char. repeat case_match; reflexivity. Qed.

Lemma pretty_N_go_no_colon (x : N) :
  forall s, JS.containsChar ":" (pretty_N_go x s) = JS.containsChar ":" s.
Proof.
  induction (N.lt_wf_0 x) as [x _ IH]; intros s.
  destruct (N.eq_dec x 0%N) as [->|Hx]; [reflexivity|].
  rewrite pretty_N_go_step by lia.
  rewrite IH by (apply N.div_lt; lia).
  rewrite containsChar_String, pretty_N_char_no_colon. reflexivity.
Qed.

Lemma pretty_nat_no_colon (n : nat) : JS.containsChar ":" (pretty n) = false.
Proof.
  unfold pretty, pretty_nat, pretty, pretty_N.
  case_decide; [reflexivity | apply pretty_N_go_no_colon].
Qed.

(** A text that ends in a colon and a part without colons is cut at its
    last colon in one way only. *)
Lemma append_colon_inj (p1 p2 d1 d2 : string) :
  JS.containsChar ":" d1 = false -> JS.containsChar ":" d2 = false ->
  p1 +:+ ":" +:+ d1 = p2 +:+ ":" +:+ d2 -> p1 = p2 /\ d1 = d2.
Proof.
  intros H1 H2. revert p2.
  induction p1 as [|c p1 IH]; intros [|c' p2] H;
    rewrite ?append_String, ?append_nil_l in H.
  - injection H as ->. auto.
  - injection H as _ ->. rewrite containsChar_append, containsChar_String in H1.
    rewrite orb_true_r in H1. discriminate H1.
  - injection H as _ <-. rewrite containsChar_append, containsChar_String in H2.
    rewrite orb_true_r in H2. discriminate H2.
  - injection H as -> H. destruct (IH p2 H) as [-> ->]. auto.
Qed.

(** X17: [listId] tells items apart exactly by path and line: two items
    have one identity only if they have one path and one line, colons in
    the path included. *)
Theorem listId_path_and_line (a b : TaskView.SListItem) :
  TaskView.listId a = TaskView.listId b
  <-> TaskView.path a = TaskView.path b /\ TaskView.line a = TaskView.line b.
Proof.
  unfold TaskView.listId. split.
  - intros H. apply append_colon_inj in H; try apply pretty_nat_no_colon.
    destruct H as [Hp Hl]. split; [exact Hp|]. apply (inj pretty), Hl.
  - intros [-> ->]. reflexivity.
Qed.

Section Descendants.
Import TaskView Shape.

Lemma identities_app (l1 l2 : list SListItem) :
  identities (l1 ++ l2) = identities l1 ∪ identities l2.
Proof. unfold identities. rewrite map_app, list_to_set_app_L. reflexivity. Qed.

Lemma identities_cons (x : SListItem) (l : list SListItem) :
  identities (x :: l) = {[ listId x ]} ∪ identities l.
Proof. reflexivity. Qed.

Lemma listChildren_into_descendants (item : SListItem) :
  forall output, listChildren_into item output = output ∪ identities (descendants item).
Proof.
  induction item as [p l lc t s st cs IHcs] using SListItem_nested_ind.
  cbn [listChildren_into descendants children].
  induction IHcs as [|c cs Hc _ IH]; intros output; cbn [fold_left flat_map].
  - unfold identities. simpl. set_solver.
  - rewrite IH, Hc, identities_app, identities_cons. set_solver.
Qed.

Lemma nestItems_loop_sets (raw : list SListItem) :
  forall seen mask,
    nestItems_loop raw seen mask = (seen ∪ covered raw, mask ∪ identities raw).
Proof.
  unfold covered. induction raw as [|item raw IH]; intros seen mask;
    cbn [nestItems_loop flat_map].
  - unfold identities. simpl. f_equal; set_solver.
  - rewrite IH. unfold listChildren. cbn [default].
    rewrite listChildren_into_descendants, identities_app, identities_cons.
    f_equal; set_solver.
Qed.

Lemma nestItems_sets (raw : list SListItem) :
  nestItems raw = (filter (fun t => listId t ∉ covered raw) raw, identities raw).
Proof.
  unfold nestItems. rewrite nestItems_loop_sets.
  assert (∅ ∪ covered raw = covered raw) as -> by set_solver.
  assert (∅ ∪ identities raw = identities raw) as -> by set_solver.
  reflexivity.
Qed.

Lemma elem_of_covered (x : string) (raw : list SListItem) :
  x ∈ covered raw
  <-> exists item d, In item raw /\ In d (descendants item) /\ x = listId d.
Proof.
  unfold covered, identities. rewrite elem_of_list_to_set, list_elem_of_In, in_map_iff.
  split.
  - intros (d & <- & Hd). apply in_flat_map in Hd. destruct Hd as (item & Hi & Hd). eauto.
  - intros (item & d & Hi & Hd & ->). exists d. split; [reflexivity|].
    apply in_flat_map. eauto.
Qed.

End Descendants.

(** X18: [listChildren] adds to the set it is given the identities of the
    items below the item, at every depth, and nothing else; called without
    a set it returns exactly those. *)
Theorem listChildren_is_descendants (item : TaskView.SListItem) (output : gset string) :
  TaskView.listChildren item (Some output) = output ∪ Shape.identities (Shape.descendants item)
  /\ TaskView.listChildren item None = Shape.identities (Shape.descendants item).
Proof.
  unfold TaskView.listChildren. simpl. rewrite !listChildren_into_descendants.
  split; [reflexivity | set_solver].
Qed.

(** X19: [nestItems] keeps, in their order, the items whose identity is not
    that of an item below one of the items given, at any depth, and returns
    with them the identities of all items given. *)
Theorem nestItems_keeps_uncovered (raw : list TaskView.SListItem) :
  TaskView.nestItems raw
  = (filter (fun t => TaskView.listId t ∉ Shape.covered raw) raw, Shape.identities raw)
  /\ forall x,
       x ∈ Shape.covered raw
       <-> exists item d,
             In item raw /\ In d (Shape.descendants item) /\ x = TaskView.listId d.
Proof. split; [apply nestItems_sets | intros x; apply elem_of_covered]. Qed.

(** X20: what [nestItems] keeps it keeps again: de-duplicating the items it
    returned returns them all; and items without children are all kept. *)
Theorem nestItems_idempotent (raw : list TaskView.SListItem) :
  fst (TaskView.nestItems (fst (TaskView.nestItems raw))) = fst (TaskView.nestItems raw)
  /\ (Forall (fun t => TaskView.children t = []) raw -> fst (TaskView.nestItems raw) = raw).
Proof.
  rewrite !nestItems_sets. simpl. split.
  - apply list_filter_filter_r. intros t Ht Hin. apply Ht.
    apply elem_of_covered in Hin. destruct Hin as (item & d & Hi & Hd & ->).
    apply elem_of_covered. exists item, d. split; [|auto].
    apply list_elem_of_In in Hi. apply list_elem_of_filter in Hi.
    apply list_elem_of_In, Hi.
  - intros Hflat.
    assert (Shape.covered raw = ∅) as ->.
    { apply set_eq. intros x. rewrite elem_of_covered. split; [|set_solver].
      intros (item & d & Hi & Hd & _). rewrite List.Forall_forall in Hflat.
      specialize (Hflat item Hi). destruct item as [p l lc t s st cs]. simpl in Hflat.
      subst cs. destruct Hd. }
    induction raw as [|t raw IH]; [reflexivity|].
    rewrite filter_cons_True by set_solver. f_equal. apply IH.
    inversion Hflat; assumption.
Qed.

(** ** Lines: splitting and joining *)

Lemma append_nil_r (s : string) : s +:+ "" = s.
Proof.
  induction s as [|c s IH]; [reflexivity|]. rewrite append_String, IH. reflexivity.
Qed.

Lemma append_snoc (cur : string) (c : ascii) (s : string) :
  (cur +:+ String c "") +:+ s = cur +:+ String c s.
Proof. rewrite append_assoc. reflexivity. Qed.

Lemma splitLF_from_step (cur : string) (c : ascii) (s : string) :
  JS.splitLF_from cur (String c s)
  = if Ascii.eqb c JS.LF then cur :: JS.splitLF_from "" s
    else JS.splitLF_from (cur +:+ String c "") s.
Proof. reflexivity. Qed.

Lemma join_cons (sep p : string) (rest : list string) :
  rest <> [] -> JS.join sep (p :: rest) = p +:+ sep +:+ JS.join sep rest.
Proof. destruct rest; [contradiction | reflexivity]. Qed.

Lemma splitLF_from_nonempty (cur s : string) : JS.splitLF_from cur s <> [].
Proof. destruct (splitLF_from_cons cur s) as (f & o & ->). discriminate. Qed.

(** [s.split("\n").join("\n")] is [s]. *)
Lemma join_splitLF_from (s : string) :
  forall cur, JS.join (String JS.LF "") (JS.splitLF_from cur s) = cur +:+ s.
Proof.
  induction s as [|c s IH]; intros cur.
  - simpl. symmetry. apply append_nil_r.
  - rewrite splitLF_from_step. destruct (Ascii.eqb_spec c JS.LF) as [->|Hc].
    + rewrite join_cons by apply splitLF_from_nonempty. rewrite IH. reflexivity.
    + rewrite IH. apply append_snoc.
Qed.

(** Without a carriage return, [/\r?\n/u] splits where ["\n"] does. *)
Lemma splitLines_from_no_CR (s : string) :
  JS.containsChar JS.CR s = false ->
  forall cur, JS.splitLines_from cur s = JS.splitLF_from cur s.
Proof.
  induction s as [|c s IH]; intros Hcr cur; [reflexivity|].
  rewrite containsChar_String in Hcr. apply orb_false_iff in Hcr. destruct Hcr as [Hc Hs].
  rewrite splitLF_from_step. cbn [JS.splitLines_from].
  destruct (Ascii.eqb c JS.LF); [rewrite IH by exact Hs; reflexivity|].
  rewrite Ascii.eqb_sym, Hc. apply IH, Hs.
Qed.

Lemma splitLF_from_no_LF (s : string) :
  JS.containsChar JS.LF s = false -> forall cur, JS.splitLF_from cur s = [cur +:+ s].
Proof.
  induction s as [|c s IH]; intros Hlf cur.
  - simpl. rewrite append_nil_r. reflexivity.
  - rewrite containsChar_String in Hlf. apply orb_false_iff in Hlf.
    destruct Hlf as [Hc Hs]. rewrite splitLF_from_step, Ascii.eqb_sym, Hc.
    rewrite IH by exact Hs. rewrite append_snoc. reflexivity.
Qed.

Lemma splitLF_from_last_line (prefix last : string) :
  JS.containsChar JS.LF last = false ->
  forall cur,
    JS.splitLF_from cur (prefix +:+ String JS.LF last)
    = (JS.splitLF_from cur prefix ++ [last])%list.
Proof.
  intros Hlast. induction prefix as [|c prefix IH]; intros cur.
  - rewrite append_nil_l, splitLF_from_step. simpl Ascii.eqb.
    rewrite splitLF_from_no_LF by exact Hlast. reflexivity.
  - rewrite append_String, !splitLF_from_step.
    destruct (Ascii.eqb c JS.LF); rewrite IH; reflexivity.
Qed.

Lemma join_snoc (sep y : string) (l : list string) :
  l <> [] -> JS.join sep (l ++ [y]) = JS.join sep l +:+ sep +:+ y.
Proof.
  induction l as [|x l IH]; intros Hl; [contradiction|].
  destruct l as [|x' l].
  - reflexivity.
  - change (JS.join sep (x :: (x' :: l) ++ [y]) = JS.join sep (x :: x' :: l) +:+ sep +:+ y).
    rewrite join_cons by (destruct l; discriminate).
    rewrite IH by discriminate. rewrite (join_cons sep x (x' :: l)) by discriminate.
    rewrite !append_assoc. reflexivity.
Qed.

Lemma insert_last (A : Type) (l : list A) (x y : A) :
  <[ (length (l ++ [x]) - 1)%nat := y ]> (l ++ [x])%list = (l ++ [y])%list.
Proof.
  rewrite length_app. simpl.
  replace (length l + 1 - 1)%nat with (length l + 0)%nat by lia.
  rewrite insert_app_r. reflexivity.
Qed.

Lemma nth_last (l : list string) (x : string) :
  nth (length (l ++ [x]) - 1) (l ++ [x])%list "" = x.
Proof.
  rewrite length_app. simpl.
  replace (length l + 1 - 1)%nat with (length l) by lia.
  rewrite app_nth2 by lia. rewrite Nat.sub_diag. reflexivity.
Qed.

(** X21: [trimEndingLines] returns a text without carriage returns as it
    is, blank lines at its end included. *)
Theorem trimEndingLines_identity (text : string)
  (Hcr : JS.containsChar JS.CR text = false) :
  TaskView.trimEndingLines text = text.
Proof.
  unfold TaskView.trimEndingLines, JS.splitLines.
  rewrite splitLines_from_no_CR by exact Hcr. apply join_splitLF_from.
Qed.

Lemma trimEndingLines_identity_witness :
  TaskView.trimEndingLines ("buy milk" +:+ String JS.LF (String JS.LF ""))
  = "buy milk" +:+ String JS.LF (String JS.LF "").
Proof. apply trimEndingLines_identity. reflexivity. Defined.

(** X22: completing a task sets the completion field on the last line of
    its text and leaves the lines before it as they are: on a text without
    carriage returns [setTaskCompletion] returns the lines before the last
    one, a line feed, and what [setInlineField] makes of the last line with
    the date of the day; on a text of one line, what it makes of the
    text. *)
Theorem setTaskCompletion_stamps_last_line
  (setInlineField : string -> string -> option string -> string)
  (today before last key : string)
  (Hbefore : JS.containsChar JS.CR before = false)
  (Hcr : JS.containsChar JS.CR last = false)
  (Hlf : JS.containsChar JS.LF last = false) :
  TaskView.setTaskCompletion setInlineField today (before +:+ String JS.LF last) key true
  = before +:+ String JS.LF (setInlineField last key (Some today))
  /\ TaskView.setTaskCompletion setInlineField today last key true
     = setInlineField last key (Some today).
Proof.
  unfold TaskView.setTaskCompletion, JS.splitLines. simpl negb. cbv iota. split.
  - assert (JS.containsChar JS.CR (before +:+ String JS.LF last) = false) as Hall.
    { rewrite containsChar_append, containsChar_String, Hbefore, Hcr. reflexivity. }
    rewrite splitLines_from_no_CR by exact Hall.
    rewrite splitLF_from_last_line by exact Hlf.
    rewrite nth_last, insert_last.
    rewrite join_snoc by apply splitLF_from_nonempty.
    rewrite join_splitLF_from. reflexivity.
  - rewrite splitLines_from_no_CR by exact Hcr.
    rewrite splitLF_from_no_LF by exact Hlf. reflexivity.
Qed.

Lemma setTaskCompletion_stamps_last_line_witness :
  TaskView.setTaskCompletion (fun text key value => text +:+ " [" +:+ key +:+ "]")
    "2022-01-01" ("pack" +:+ String JS.LF "  socks") "done" true
  = "pack" +:+ String JS.LF "  socks [done]".
Proof.
  exact (proj1 (setTaskCompletion_stamps_last_line
                  (fun text key value => text +:+ " [" +:+ key +:+ "]")
                  "2022-01-01" "pack" "  socks" "done" eq_refl eq_refl eq_refl)).
Defined.

(** ** The rewriter: the status alone, and what it never does *)

(** X23: called without a replacement text (or with the empty one), in a
    call that is no no-op, on a document that is read, passes all guards
    and holds the addressed line, [rewriteTask] replaces that line by
    [<indent><marker> [<status>] <first line of the node's text, trimmed>]
    and no other line, joins the lines with the line ending of the
    document, and hands the document to the host in one write.  The call
    resolves with that document in the vault; if the host refuses the write
    it is rejected and the documents are as they were. *)
Theorem rewriteTask_status_only
  (exec : string -> option TaskView.RegExpMatch) (vault : Vault.Vault)
  (task : TaskView.SListItem) (desiredStatus : string) (desiredText : option string)
  (raw : string)
  (Hfile : Vault.files vault !! TaskView.path task = Some raw)
  (Hchange : ~ RewriteSpec.nothingToDo task desiredStatus desiredText)
  (Htext : TaskView.supplied desiredText = None)
  (Hline : (TaskView.line task < length (JS.splitLines raw))%nat)
  (Hguards : RewriteSpec.guardsPass exec task raw) :
  Vault.io (fst (TaskView.rewriteTask exec vault task desiredStatus desiredText))
  = (Vault.io vault
     ++ [Vault.ReadEvent (TaskView.path task);
         Vault.WriteEvent (TaskView.path task)
           (Shape.restatedDocument raw task desiredStatus)])%list
  /\ snd (TaskView.rewriteTask exec vault task desiredStatus desiredText)
     = (if Vault.refuses vault (TaskView.path task)
             (Shape.restatedDocument raw task desiredStatus)
        then TaskView.Rejected (IOError "write rejected")
        else TaskView.Resolved)
  /\ Vault.files (fst (TaskView.rewriteTask exec vault task desiredStatus desiredText))
     = (if Vault.refuses vault (TaskView.path task)
             (Shape.restatedDocument raw task desiredStatus)
        then Vault.files vault
        else <[ TaskView.path task := Shape.restatedDocument raw task desiredStatus ]>
               (Vault.files vault)).
Proof.
  destruct Hguards as (Hlen & m & box & body & Hm & H2 & Hbox & H3 & Hbody).
  assert (TaskView.rewriteTask exec vault task desiredStatus desiredText
          = RewriteSpec.written
              (Vault.write (fst (Vault.read vault (TaskView.path task)))
                 (TaskView.path task) (Shape.restatedDocument raw task desiredStatus)))
    as ->.
  { unfold TaskView.rewriteTask.
    destruct (_ && _) eqn:Hnoop;
      [apply (nothingToDo_test task desiredStatus desiredText) in Hnoop; contradiction|].
    unfold Vault.read at 1. rewrite Hfile.
    apply Nat.ltb_ge in Hlen. rewrite Hlen, Hm, H2.
    destruct box as [|c box]; [contradiction|]. simpl String.length. simpl Nat.eqb.
    rewrite H3. fold (RewriteSpec.cachedFirstLine task). rewrite Hbody, String.eqb_refl.
    simpl negb. cbv iota. rewrite Htext. unfold TaskView.assign.
    apply Nat.ltb_lt in Hline. rewrite Hline. rewrite <- Hbody. reflexivity. }
  unfold RewriteSpec.written, Vault.write, Vault.read. simpl.
  destruct (Vault.refuses vault _ _); simpl; rewrite <- app_assoc; repeat split.
Qed.

Lemma rewriteTask_status_only_witness :
  Vault.files Sample.milkVault !! TaskView.path Sample.milkTask = Some Sample.milkDocument
  /\ ~ RewriteSpec.nothingToDo Sample.milkTask "X" None
  /\ (TaskView.line Sample.milkTask < length (JS.splitLines Sample.milkDocument))%nat
  /\ RewriteSpec.guardsPass TaskView.listItemGrammar_exec Sample.milkTask Sample.milkDocument
  /\ Vault.files (fst (TaskView.rewriteTask TaskView.listItemGrammar_exec Sample.milkVault
                         Sample.milkTask "X" None))
     = <[ "list.md" := "- [X] buy milk" +:+ String JS.LF "" ]>
         (Vault.files Sample.milkVault).
Proof.
  assert (Vault.files Sample.milkVault !! TaskView.path Sample.milkTask
          = Some Sample.milkDocument) as Hfile by (vm_compute; reflexivity).
  assert (~ RewriteSpec.nothingToDo Sample.milkTask "X" None) as Hchange
    by (intros [H _]; discriminate H).
  assert (TaskView.line Sample.milkTask < length (JS.splitLines Sample.milkDocument))%nat
    as Hline by (vm_compute; lia).
  assert (RewriteSpec.guardsPass TaskView.listItemGrammar_exec Sample.milkTask
            Sample.milkDocument) as Hguards.
  { split; [vm_compute; lia|].
    exists (TaskView.mkMatch (Some "-") (Some "[ ]") (Some "buy milk")), "[ ]", "buy milk".
    repeat split; try reflexivity. discriminate. }
  assert (Shape.restatedDocument Sample.milkDocument Sample.milkTask "X"
          = "- [X] buy milk" +:+ String JS.LF "") as Hdoc by (vm_compute; reflexivity).
  split; [exact Hfile|]. split; [exact Hchange|]. split; [exact Hline|].
  split; [exact Hguards|].
  rewrite <- Hdoc.
  exact (proj2 (proj2 (rewriteTask_status_only TaskView.listItemGrammar_exec
                         Sample.milkVault Sample.milkTask "X" None Sample.milkDocument
                         Hfile Hchange eq_refl Hline Hguards))).
Defined.

(** X24: whatever it is called with, [rewriteTask] does one of four
    things: no I/O at all, and it resolves with the vault as it was; one
    read of the document of the node and nothing else, no document
    changing; that read followed by one write of the same document that the
    host fulfils, and it resolves with the data written as that document
    and every other document as it was; or that read followed by one write
    of the same document that the host refuses, and it is rejected with
    every document as it was.  So it never asks for another document, never
    writes what it has not read, and resolves after a write only if the
    write was fulfilled. *)
Theorem rewriteTask_reads_then_writes_one_document
  (exec : string -> option TaskView.RegExpMatch) (vault : Vault.Vault)
  (task : TaskView.SListItem) (desiredStatus : string) (desiredText : option string) :
  (TaskView.rewriteTask exec vault task desiredStatus desiredText = (vault, TaskView.Resolved))
  \/ (Vault.files (fst (TaskView.rewriteTask exec vault task desiredStatus desiredText))
      = Vault.files vault
      /\ Vault.io (fst (TaskView.rewriteTask exec vault task desiredStatus desiredText))
         = (Vault.io vault ++ [Vault.ReadEvent (TaskView.path task)])%list)
  \/ (exists data,
        Vault.io (fst (TaskView.rewriteTask exec vault task desiredStatus desiredText))
        = (Vault.io vault
           ++ [Vault.ReadEvent (TaskView.path task);
               Vault.WriteEvent (TaskView.path task) data])%list
        /\ ((Vault.refuses vault (TaskView.path task) data = false
             /\ snd (TaskView.rewriteTask exec vault task desiredStatus desiredText)
                = TaskView.Resolved
             /\ Vault.files
                  (fst (TaskView.rewriteTask exec vault task desiredStatus desiredText))
                = <[ TaskView.path task := data ]> (Vault.files vault))
            \/ (Vault.refuses vault (TaskView.path task) data = true
                /\ snd (TaskView.rewriteTask exec vault task desiredStatus desiredText)
                   = TaskView.Rejected (IOError "write rejected")
                /\ Vault.files
                     (fst (TaskView.rewriteTask exec vault task desiredStatus desiredText))
                   = Vault.files vault))).
Proof.
  unfold TaskView.rewriteTask.
  destruct (_ && _); [left; reflexivity|]. right.
  unfold Vault.read.
  destruct (Vault.files vault !! TaskView.path task) as [raw|];
    [|left; split; reflexivity].
  destruct (_ <? _)%nat; [left; split; reflexivity|].
  destruct (exec _) as [m|]; [|left; split; reflexivity].
  destruct (TaskView.group2 m) as [g2|]; [|left; split; reflexivity].
  destruct (_ =? _)%nat; [left; split; reflexivity|].
  destruct (TaskView.group3 m) as [g3|]; [|left; split; reflexivity].
  destruct (negb _); [left; split; reflexivity|].
  right. eexists. unfold Vault.write. simpl.
  destruct (Vault.refuses vault _ _) eqn:Hrefuses; simpl; rewrite <- app_assoc.
  - split; [reflexivity|]. right. rewrite Hrefuses. repeat split.
  - split; [reflexivity|]. left. rewrite Hrefuses. repeat split.
Qed.

(** ** Loads *)

(** X25: [load] of a link is [load] of the path of the link; a value that
    is neither a string nor a link fails the type check before any I/O,
    with the vault as it was; and no load changes a document. *)
Theorem load_reads_the_path (resolveRelative : string -> option string -> string)
  (vault : Vault.Vault) (originFile : option string) :
  (forall l : Link.Link,
     DataviewApi.load resolveRelative vault (LLink l) originFile
     = DataviewApi.load resolveRelative vault (LString (Link.path l)) originFile)
  /\ (forall path : Literal,
        (forall l, path <> LLink l) -> (forall s, path <> LString s) ->
        DataviewApi.load resolveRelative vault path originFile
        = (vault,
           DataviewApi.Failed
             ("dv.io.load only handles string or link paths; was provided type '"
              +:+ typeof path +:+ "'.")))
  /\ (forall path : Literal,
        Vault.files (fst (DataviewApi.load resolveRelative vault path originFile))
        = Vault.files vault)
  /\ (forall s : string,
        DataviewApi.load resolveRelative vault (LString s) originFile
        = (Vault.mkVault (Vault.files vault)
             (Vault.io vault ++ [Vault.ReadEvent (resolveRelative s originFile)])
             (Vault.refuses vault),
           match Vault.files vault !! resolveRelative s originFile with
           | Some data => DataviewApi.Fulfilled data
           | None => DataviewApi.ReadRejected
           end)).
Proof.
  split; [reflexivity|]. split; [|split].
  - intros path Hl Hs. unfold DataviewApi.load.
    destruct path; try reflexivity.
    + exfalso. eapply Hs. reflexivity.
    + exfalso. eapply Hl. reflexivity.
  - intros path. unfold DataviewApi.load.
    destruct (_ && _); [reflexivity|]. unfold Vault.read.
    destruct (Vault.files vault !! _); reflexivity.
  - intros s. unfold DataviewApi.load, Vault.read. simpl.
    destruct (Vault.files vault !! _); reflexivity.
Qed.
